(** * The voice relay: Twilio Media Streams <-> OpenAI Realtime <-> n8n

    A shallow embedding of the per-call relay of [src/unnamed/part_000]
    (the [wss.on('connection')] handler, [connectOpenAI],
    [finalizeAndNotify] and the [/voice] endpoint), and of the handler of
    [src/ai_voice_relay_server.js], which is the same code with three
    diagnostic frame counters and a statistics timer added, in a file that
    does not define [connectOpenAI].

    The relay is event driven.  Each handler of the source is a function in
    a small monad that threads the state of the process, collects the calls
    the handler makes on its collaborators (the two sockets, [fetch], the
    console) and models JavaScript exceptions with [try]/[catch]. *)

From Stdlib Require Import PrimFloat ZArith Ascii.
From stdpp Require Import gmap strings list fin_maps pretty sorting.

Set Warnings "-register-all".
Local Open Scope Z_scope.

(** ** JavaScript values, as far as the relay looks at them *)

Module Js.

(** What [JSON.parse] returns.  A number is a double ([1e400] parses to
    [Infinity]); an object is the finite map of its own members, which
    [JSON.parse] creates as plain data members whatever their name
    ([__proto__] included). *)
Inductive json : Type :=
  | JNull
  | JBool (b : bool)
  | JNum (x : float)
  | JStr (s : string)
  | JArr (l : list json)
  | JObj (m : gmap string json).

(** A JavaScript value is a JSON value or [undefined] ([None]). *)
Definition value : Type := option json.

Definition undefined : value := None.
Definition null : value := Some JNull.

(** ToBoolean. *)
Definition truthy (v : value) : bool :=
  match v with
  | None => false
  | Some JNull => false
  | Some (JBool b) => b
  | Some (JNum x) => negb (PrimFloat.is_zero x || PrimFloat.is_nan x)
  | Some (JStr s) => negb (String.eqb s "")
  | Some (JArr _) => true
  | Some (JObj _) => true
  end.

(** [a || b] and [a && b]: the operand itself is the result. *)
Definition js_or (a b : value) : value := if truthy a then a else b.
Definition js_and (a b : value) : value := if truthy a then b else a.

(** [v === 'lit'] for a string literal. *)
Definition eq_lit (v : value) (lit : string) : value :=
  match v with
  | Some (JStr s) => Some (JBool (String.eqb s lit))
  | _ => Some (JBool false)
  end.

(** [o.k] for [o] other than [null]: the member of an object; no number,
    boolean, string or array has one of the member names the relay reads
    ([event], [start], [streamSid], [media], [payload], [type], [audio],
    [delta], [text], [from], [fields]). *)
Definition get (o : json) (k : string) : value :=
  match o with
  | JObj m => m !! k
  | _ => undefined
  end.

(** [o?.k]: [undefined] when [o] is [undefined] or [null]. *)
Definition get_opt (o : value) (k : string) : value :=
  match o with
  | None | Some JNull => undefined
  | Some v => get v k
  end.

(** The UTF-16 code units of a text, each as a text of its own: what
    indexing a string gives.  Text is held as its UTF-8 bytes.  A sequence of
    one, two or three bytes is one unit; a sequence of four bytes (a character
    beyond U+FFFF) is two units, its surrogates, each held in the three-byte
    form of its code point. *)
Definition unit3 (u : N) : string :=
  String (ascii_of_N (224 + u / 4096))
    (String (ascii_of_N (128 + (u / 64) mod 64))
       (String (ascii_of_N (128 + u mod 64)) EmptyString)).

Fixpoint chars (s : string) : list string :=
  match s with
  | EmptyString => []
  | String a r =>
      let n := N_of_ascii a in
      let one := String a EmptyString :: chars r in
      if (n <? 192)%N then one
      else if (n <? 224)%N then
        match r with
        | String b r1 => String a (String b EmptyString) :: chars r1
        | _ => one
        end
      else if (n <? 240)%N then
        match r with
        | String b (String c r2) =>
            String a (String b (String c EmptyString)) :: chars r2
        | _ => one
        end
      else if (n <? 248)%N then
        match r with
        | String b (String c (String d r3)) =>
            let v := ((n mod 8) * 262144 + (N_of_ascii b mod 64) * 4096
                      + (N_of_ascii c mod 64) * 64 + N_of_ascii d mod 64 - 65536)%N in
            unit3 (55296 + v / 1024) :: unit3 (56320 + v mod 1024) :: chars r3
        | _ => one
        end
      else one
  end.

Definition indexed (l : list json) : gmap string json :=
  list_to_map (imap (fun i x => (pretty i, x)) l).

(** The own enumerable members [Object.assign] copies from a source: the
    members of an object, the indexed elements of an array, the indexed
    code units of a string, none of a number, a boolean or [null]. *)
Definition own_members (src : json) : gmap string json :=
  match src with
  | JObj m => m
  | JArr l => indexed l
  | JStr s => indexed (JStr <$> chars s)
  | _ => ∅
  end.

(** What a write to the member [__proto__] of an object meets.
    [Object.assign] writes with [[Set]], and on an object literal the name
    [__proto__] is the accessor of [Object.prototype]: its setter replaces
    the prototype of the object when it is given an object or [null], does
    nothing when it is given anything else, and creates no member
    ([Accessor]).  Once the prototype is [null], or is an object that has a
    member [__proto__] of its own, the accessor is out of reach and the write
    creates a member like any other ([Plain]).  No other member name is
    affected: every member a parsed object, an array or [Object.prototype]
    can pass on is a writable data member, and writing over one creates the
    member on the target. *)
Inductive proto := Accessor | Plain.

(** ... and what it meets on a target that holds the members [target]: a
    member [__proto__] of its own is written over like any other. *)
Definition proto_of (p : proto) (target : gmap string json) : proto :=
  if bool_decide (is_Some (target !! "__proto__")) then Plain else p.

(** [Object.assign(target, src)]: every member of [src] is written over
    [target], the other members of [target] stay; an [undefined] source is
    skipped.  A member [__proto__] of [src] is written as a member only where
    the write does not meet the accessor. *)
Definition assign (p : proto) (target : gmap string json) (src : value)
    : gmap string json :=
  match src with
  | Some v =>
      match proto_of p target with
      | Plain => own_members v ∪ target
      | Accessor => delete "__proto__" (own_members v) ∪ target
      end
  | None => target
  end.

(** ... and what the next write to [__proto__] will meet: the setter has put
    the value of the member [__proto__] of [src] in place of the prototype if
    it is [null] or an object. *)
Definition assign_proto (p : proto) (target : gmap string json) (src : value) : proto :=
  match proto_of p target, src with
  | Accessor, Some v =>
      match own_members v !! "__proto__" with
      | Some JNull => Plain
      | Some (JObj q) => if bool_decide (is_Some (q !! "__proto__")) then Plain else Accessor
      | _ => Accessor
      end
  | q, _ => q
  end.

(** What [JSON.stringify] writes, as the value its text denotes: a number
    that is not finite is written [null], [-0] is written [0], and arrays and
    objects are written member by member. *)
Fixpoint written (v : json) : json :=
  match v with
  | JNum x =>
      if PrimFloat.is_finite x
      then JNum (if PrimFloat.is_zero x then 0%float else x)
      else JNull
  | JArr l => JArr (written <$> l)
  | JObj m => JObj (written <$> m)
  | _ => v
  end.


(** Object literals, as [JSON.stringify] sees them: a member whose value is
    [undefined] is left out. *)
Definition member (k : string) (v : value) : list (string * json) :=
  match v with
  | Some j => [(k, j)]
  | None => []
  end.

Definition obj (l : list (list (string * json))) : json :=
  JObj (list_to_map (concat l)).

Definition str (s : string) : value := Some (JStr s).

End Js.

Import Js.

(** ** The session store *)

(** One entry of a transcript: [{ from, text, t }]. *)
Record Entry := mkEntry { from : value; text : value; t : Z }.

(** [{ transcript: [], fields: {}, start: Date.now() }].  [fields] holds the
    own members of the object, [fields_proto] what a write to its member
    [__proto__] meets. *)
Record Session := mkSession {
  transcript : list Entry;
  fields : gmap string json;
  fields_proto : proto;
  start : Z
}.

Definition newSession (now : Z) : Session :=
  {| transcript := []; fields := ∅; fields_proto := Accessor; start := now |}.

(** The body of the summary request, before [JSON.stringify]. *)
Record Summary := mkSummary {
  sum_callSid : string;
  startedAt : Z;
  endedAt : Z;
  sum_transcript : list Entry;
  sum_fields : gmap string json
}.

(** ** Calls the relay makes on its collaborators *)

Inductive level := Log | Warn | Error.

Inductive call :=
  | TwilioSend (m : json)          (* twilioWS.send(JSON.stringify(m)) *)
  | TwilioClose                    (* twilioWS.close() *)
  | AiSend (m : json)              (* aiWS.send(JSON.stringify(m)) *)
  | AiClose                        (* aiWS.close() *)
  | Fetch (url : string) (body : Summary)   (* fetch(url, { method: 'POST', ... }) *)
  | Console (l : level) (tag : string)      (* console.log / warn / error *)
  | Finalize (callSid : string).   (* the call finalizeAndNotify(callSid) itself *)

(** ** State *)

(** Which handlers the connection has registered: only the caller's message
    handler while [connectOpenAI] is pending ([Connecting]); all of them once
    the [try] block has run to its end ([Active]); no more than the caller's
    message handler after the [catch] block returned ([Failed]). *)
Inductive phase := Connecting | Active | Failed.

Inductive socket := Socket.

(** Session objects are shared between the [sessions] map and the closure of
    the connection handler ([const session = sessions.get(callSid) || ...]):
    they live in a heap and are named by their address. *)
Record St := mkSt {
  (* process wide *)
  sessions : gmap string nat;
  heap : list Session;
  (* the closure of one connection *)
  callSid : string;
  session : nat;
  streamSid : value;
  aiWS : option socket;
  aiReady : bool;
  registered : phase;
  (* the environment: whether the next calls on a socket throw, one answer
     per call; the calls return once the list is used up *)
  throws : list bool
}.

Definition set_store (m : gmap string nat) (h : list Session) (st : St) : St :=
  mkSt m h (callSid st) (session st) (streamSid st) (aiWS st) (aiReady st)
       (registered st) (throws st).

Definition set_heap (h : list Session) (st : St) : St :=
  set_store (sessions st) h st.

Definition set_streamSid (v : value) (st : St) : St :=
  mkSt (sessions st) (heap st) (callSid st) (session st) v (aiWS st) (aiReady st)
       (registered st) (throws st).

Definition set_aiWS (a : option socket) (st : St) : St :=
  mkSt (sessions st) (heap st) (callSid st) (session st) (streamSid st) a (aiReady st)
       (registered st) (throws st).

Definition set_aiReady (b : bool) (st : St) : St :=
  mkSt (sessions st) (heap st) (callSid st) (session st) (streamSid st) (aiWS st) b
       (registered st) (throws st).

Definition set_registered (p : phase) (st : St) : St :=
  mkSt (sessions st) (heap st) (callSid st) (session st) (streamSid st) (aiWS st)
       (aiReady st) p (throws st).

Definition set_throws (o : list bool) (st : St) : St :=
  mkSt (sessions st) (heap st) (callSid st) (session st) (streamSid st) (aiWS st)
       (aiReady st) (registered st) o.

(** ** The handler monad: state, emitted calls, exceptions *)

Inductive outcome (A : Type) :=
  | Normal (a : A)
  | Thrown.
Arguments Normal {A} a.
Arguments Thrown {A}.

Definition M (A : Type) : Type := St -> outcome A * St * list call.

#[global] Instance M_ret : MRet M := fun A a st => (Normal a, st, []).

#[global] Instance M_bind : MBind M := fun A B f m st =>
  match m st with
  | (Normal a, st1, out1) =>
      match f a st1 with (r, st2, out2) => (r, st2, out1 ++ out2) end
  | (Thrown, st1, out1) => (Thrown, st1, out1)
  end.

Definition throw {A} : M A := fun st => (Thrown, st, []).

(** [try { m } catch { h }] *)
Definition try_catch (m h : M unit) : M unit := fun st =>
  match m st with
  | (Normal a, st1, out1) => (Normal a, st1, out1)
  | (Thrown, st1, out1) =>
      match h st1 with (r, st2, out2) => (r, st2, out1 ++ out2) end
  end.

(** [try { m } catch {}] *)
Definition try_ (m : M unit) : M unit := try_catch m (mret tt).

Definition read {A} (f : St -> A) : M A := fun st => (Normal (f st), st, []).
Definition update (f : St -> St) : M unit := fun st => (Normal tt, f st, []).

(** A call that cannot throw. *)
Definition emit (c : call) : M unit := fun st => (Normal tt, st, [c]).

(** A call on a socket: it is made, and the environment decides whether it
    throws. *)
Definition perform (c : call) : M unit := fun st =>
  match throws st with
  | true :: o => (Thrown, set_throws o st, [c])
  | false :: o => (Normal tt, set_throws o st, [c])
  | [] => (Normal tt, st, [c])
  end.

Definition when (b : bool) (m : M unit) : M unit := if b then m else mret tt.

(** [JSON.parse(raw.toString())]: the text either parses to a value or the
    call throws. *)
Definition JSON_parse (raw : option json) : M json :=
  match raw with
  | Some v => mret v
  | None => throw
  end.

(** Reading a member of [null] throws a TypeError. *)
Definition not_null (msg : json) : M unit :=
  match msg with
  | JNull => throw
  | _ => mret tt
  end.

(** ** The messages the relay writes *)

Definition append (payload : value) : json :=
  obj [member "type" (str "input_audio_buffer.append"); member "audio" payload].

Definition commit : json :=
  obj [member "type" (str "input_audio_buffer.commit")].

Definition closing : json :=
  obj [member "type" (str "response.create");
       member "response" (Some (obj [member "instructions" (str "fine chiamata")]))].

Definition greeting : json :=
  obj [member "type" (str "response.create");
       member "response"
         (Some (obj [member "instructions"
            (str "Inizia con un saluto di benvenuto e chiedi come puoi aiutare.")]))].

Definition g711_ulaw : value :=
  Some (obj [member "type" (str "g711_ulaw"); member "sample_rate_hz" (Some (JNum 8000))]).

Definition session_update (systemPrompt : string) : json :=
  obj [member "type" (str "session.update");
       member "session"
         (Some (obj [member "instructions" (str systemPrompt);
                     member "modalities" (Some (JArr [JStr "audio"; JStr "text"]));
                     member "input_audio_format" g711_ulaw;
                     member "output_audio_format" g711_ulaw]))].

(** [{ event: 'media', streamSid, media: { payload } }] *)
Definition media (sid payload : value) : json :=
  obj [member "event" (str "media");
       member "streamSid" sid;
       member "media" (Some (obj [member "payload" payload]))].

(** ** The handlers of one connection *)

Section Relay.

(** [process.env]: the notification endpoint (a string, or unset) and the
    instructions of the assistant. *)
Variable N8N_SUMMARY_WEBHOOK : option string.
Variable SYSTEM_PROMPT : string.

Definition is_set (a : option socket) : bool :=
  match a with Some _ => true | None => false end.

(** [sessions.get(callSid)], through the heap. *)
Definition lookup_session (id : string) (st : St) : option Session :=
  r ← sessions st !! id; heap st !! r.

Definition webhook : value := JStr <$> N8N_SUMMARY_WEBHOOK.

(** [async function finalizeAndNotify(callSid)], up to its [await]. *)
Definition finalizeAndNotify (now : Z) (id : string) : M unit :=
  s ← read (lookup_session id);
  match s, N8N_SUMMARY_WEBHOOK with
  | Some s, Some url =>
      if truthy webhook then
        emit (Fetch url
                {| sum_callSid := id; startedAt := start s; endedAt := now;
                   sum_transcript := transcript s; sum_fields := fields s |})
      else mret tt
  | _, _ => mret tt
  end.

(** ... and after it: the request succeeded or failed. *)
Definition fetch_settled (ok : bool) : M unit :=
  if ok then emit (Console Log "[n8n] summary POSTed for")
  else emit (Console Error "[n8n] POST failed:").

(** [twilioWS.on('message', (raw) => { ... })] *)
Definition on_twilio_message (raw : option json) : M unit :=
  try_catch
    (msg ← JSON_parse raw;
     not_null msg;;
     if truthy (eq_lit (get msg "event") "start") then
       update (set_streamSid
                 (js_or (js_or (get_opt (get msg "start") "streamSid") (get msg "streamSid")) null));;
       emit (Console Log "[Twilio] START")
     else if truthy (js_and (eq_lit (get msg "event") "media")
                         (get_opt (get msg "media") "payload")) then
       ready ← read (fun st => aiReady st && is_set (aiWS st));
       when ready (perform (AiSend (append (get_opt (get msg "media") "payload"))))
     else if truthy (eq_lit (get msg "event") "stop") then
       emit (Console Log "[Twilio] STOP");;
       ai ← read aiWS;
       when (is_set ai)
         (try_ (perform (AiSend commit));;
          try_ (perform (AiSend closing));;
          try_ (perform AiClose));;
       try_ (perform TwilioClose)
     else mret tt)
    (emit (Console Error "WS parse error:")).

(** [const isAudioDelta = ...] and [const audioPayload = msg.audio || msg.delta] *)
Definition isAudioDelta (msg : json) : value :=
  js_or (js_and (eq_lit (get msg "type") "response.audio.delta") (get msg "audio"))
     (js_and (eq_lit (get msg "type") "response.output_audio.delta") (get msg "delta")).

Definition audioPayload (msg : json) : value :=
  js_or (get msg "audio") (get msg "delta").

(** [session.transcript.push(e)] and [Object.assign(session.fields, src)], on
    the session object of the closure. *)
Definition push (e : Entry) (s : Session) : Session :=
  {| transcript := transcript s ++ [e]; fields := fields s;
     fields_proto := fields_proto s; start := start s |}.

Definition assign_fields (src : value) (s : Session) : Session :=
  {| transcript := transcript s;
     fields := assign (fields_proto s) (fields s) src;
     fields_proto := assign_proto (fields_proto s) (fields s) src;
     start := start s |}.

Definition on_session (f : Session -> Session) : M unit :=
  update (fun st => set_heap (alter f (session st) (heap st)) st).

(** [aiWS.on('message', (data) => { ... })] *)
Definition on_ai_message (now : Z) (raw : option json) : M unit :=
  try_
    (msg ← JSON_parse raw;
     not_null msg;;
     when (truthy (js_and (isAudioDelta msg) (audioPayload msg)))
       (sid ← read streamSid;
        if truthy sid then perform (TwilioSend (media sid (audioPayload msg)))
        else emit (Console Warn "[Twilio] missing streamSid; audio skipped"));;
     when (truthy (js_and (eq_lit (get msg "type") "transcript.delta") (get msg "text")))
       (on_session (push {| from := js_or (get msg "from") (str "agent");
                            text := get msg "text"; t := now |}));;
     when (truthy (js_and (eq_lit (get msg "type") "extracted.fields") (get msg "fields")))
       (on_session (assign_fields (get msg "fields")))).

(** [aiWS.on('close', () => { ... })] *)
Definition on_ai_close : M unit :=
  try_ (perform TwilioClose).

(** [twilioWS.on('close', () => { ... })] *)
Definition on_twilio_close (now : Z) : M unit :=
  id ← read callSid;
  emit (Finalize id);;
  finalizeAndNotify now id;;
  try_ (ai ← read aiWS; when (is_set ai) (perform AiClose)).

(** [await connectOpenAI(SYSTEM_PROMPT)]: the promise resolves once the socket
    is open and the configuration event is written, or rejects. *)
Definition connectOpenAI (opens : bool) : M socket :=
  if opens then emit (AiSend (session_update SYSTEM_PROMPT));; mret Socket
  else throw.

(** The rest of [wss.on('connection', ...)], from the [await] on. *)
Definition connected (opens : bool) : M unit :=
  try_catch
    (s ← connectOpenAI opens;
     update (set_aiWS (Some s));;
     update (set_aiReady true);;
     emit (Console Log "[OpenAI] realtime socket connected");;
     perform (AiSend greeting);;
     update (set_registered Active))
    (emit (Console Error "[OpenAI] WS error at connect:");;
     try_ (perform TwilioClose);;
     update (set_registered Failed)).

(** The start of [wss.on('connection', ...)], up to the [await]: the
    [callSid] of the query string or a generated one, the session looked up or
    created, and stored.  The handler reads the clock once for the generated
    name and once for the start of a new session; [now] stands for both
    readings, which are taken within the same millisecond. *)
Definition connection (query : option string) (now : Z)
    (m : gmap string nat) (h : list Session) (o : list bool) : St :=
  let id := match query with
            | Some q => if String.eqb q "" then "call_" +:+ pretty now else q
            | None => "call_" +:+ pretty now
            end in
  let '(r, h') := match m !! id with
                  | Some r => (r, h)
                  | None => (length h, h ++ [newSession now])
                  end in
  {| sessions := <[id := r]> m; heap := h';
     callSid := id; session := r; streamSid := null; aiWS := None;
     aiReady := false; registered := Connecting; throws := o |}.

(** ** The event loop *)

Inductive event :=
  | TwilioMessage (raw : option json)   (* 'message' on the caller socket *)
  | TwilioClosed                        (* 'close' on the caller socket *)
  | OpenAISettled (opens : bool)        (* connectOpenAI resolved / rejected *)
  | AiMessage (raw : option json)       (* 'message' on the AI socket *)
  | AiClosed                            (* 'close' on the AI socket *)
  | FetchSettled (ok : bool).           (* the summary request settled *)

(** An event runs the handler registered for it, if any. *)
Definition dispatch (now : Z) (e : event) : M unit :=
  p ← read registered;
  match e, p with
  | TwilioMessage raw, _ => on_twilio_message raw
  | OpenAISettled opens, Connecting => connected opens
  | AiMessage raw, Active => on_ai_message now raw
  | AiClosed, Active => on_ai_close
  | TwilioClosed, Active => on_twilio_close now
  | FetchSettled ok, _ => fetch_settled ok
  | _, _ => mret tt
  end.

Definition step (now : Z) (e : event) (st : St) : St * list call :=
  match dispatch now e st with (_, st', out) => (st', out) end.

(** A run: the events of one call, each with the time it is handled at. *)
Fixpoint run (evs : list (Z * event)) (st : St) : St * list call :=
  match evs with
  | [] => (st, [])
  | (now, e) :: rest =>
      match step now e st with
      | (st1, out1) =>
          match run rest st1 with (st2, out2) => (st2, out1 ++ out2) end
      end
  end.

(** ** Reachable states *)

(** No entry of [sessions] dangles: a JavaScript reference always names an
    object. *)
Definition store_ok (m : gmap string nat) (h : list Session) : Prop :=
  map_Forall (fun _ r => (r < length h)%nat) m.

(** The states of a connection: those the start of the connection handler
    builds over some store, and those an event leads to. *)
Inductive reachable : St -> Prop :=
  | reach_connection query now m h o :
      store_ok m h -> reachable (connection query now m h o)
  | reach_step now e st :
      reachable st -> reachable (step now e st).1.

(** What holds of every reachable state: the closure's session is an object
    of the heap and is the one stored under [callSid]; [aiReady] is set only
    together with [aiWS]; the handlers of the AI socket are registered only
    when it is ready; [streamSid] is [null] or truthy; [callSid] is not
    empty. *)
Definition well_formed (st : St) : Prop :=
  store_ok (sessions st) (heap st)
  /\ callSid st <> ""
  /\ sessions st !! callSid st = Some (session st)
  /\ (aiReady st = true -> aiWS st = Some Socket)
  /\ (registered st = Active -> aiReady st = true)
  /\ (registered st = Connecting -> aiWS st = None /\ aiReady st = false)
  /\ (streamSid st = null \/ truthy (streamSid st) = true).

(** The session object of the closure. *)
Definition the_session (st : St) : option Session := heap st !! session st.

(** ** Reading a trace *)

Definition is_TwilioSend (c : call) : bool :=
  match c with TwilioSend _ => true | _ => false end.

Definition is_Fetch (c : call) : bool :=
  match c with Fetch _ _ => true | _ => false end.

Definition is_Finalize (c : call) : bool :=
  match c with Finalize _ => true | _ => false end.

(** Calls that belong to finalize-and-notify. *)
Definition notifies (c : call) : bool := is_Finalize c || is_Fetch c.

Definition is_socket_call (c : call) : bool :=
  match c with
  | TwilioSend _ | TwilioClose | AiSend _ | AiClose => true
  | _ => false
  end.

(** The calls on the two sockets, in order. *)
Definition socket_calls (out : list call) : list call :=
  List.filter is_socket_call out.

Definition is_TwilioClosed (e : Z * event) : bool :=
  match e.2 with TwilioClosed => true | _ => false end.

Definition is_OpenAISettled (e : Z * event) : bool :=
  match e.2 with OpenAISettled _ => true | _ => false end.


(** A caller ['media'] event with a payload, and its payload. *)
Definition is_MediaFrame (msg : json) : bool :=
  truthy (js_and (eq_lit (get msg "event") "media") (get_opt (get msg "media") "payload")).

Definition frame_payload (msg : json) : value :=
  get_opt (get msg "media") "payload".

(** An AI event that passes the test [isAudioDelta && audioPayload]. *)
Definition is_AudioDelta (raw : option json) : bool :=
  match raw with
  | Some JNull | None => false
  | Some msg => truthy (js_and (isAudioDelta msg) (audioPayload msg))
  end.

(** The transcript entry an AI event adds at time [now], if any. *)
Definition entry_of (now : Z) (raw : option json) : option Entry :=
  match raw with
  | Some JNull | None => None
  | Some msg =>
      if truthy (js_and (eq_lit (get msg "type") "transcript.delta") (get msg "text"))
      then Some {| from := js_or (get msg "from") (str "agent");
                   text := get msg "text"; t := now |}
      else None
  end.

(** What an AI event does to the session while its handler is registered. *)
Definition ai_effect (now : Z) (raw : option json) (s : Session) : Session :=
  match raw with
  | Some JNull | None => s
  | Some msg =>
      let s1 := match entry_of now raw with
                | Some e => push e s
                | None => s
                end in
      if truthy (js_and (eq_lit (get msg "type") "extracted.fields") (get msg "fields"))
      then assign_fields (get msg "fields") s1
      else s1
  end.

Definition entries_of (evs : list (Z * event)) : list Entry :=
  omap (fun e => match e.2 with
                 | AiMessage raw => entry_of e.1 raw
                 | _ => None
                 end) evs.



(** ** One call, for the examples *)

Definition ex_start : json :=
  obj [member "event" (str "start");
       member "start" (Some (obj [member "streamSid" (str "SX1")]))].

(** The same with [1e400] for the stream id, and a frame with [1e400] for the
    payload: [JSON.parse] reads the number as [Infinity]. *)
Definition ex_start_inf : json :=
  obj [member "event" (str "start");
       member "start" (Some (obj [member "streamSid" (Some (JNum infinity))]))].

Definition ex_media : json :=
  obj [member "event" (str "media");
       member "media" (Some (obj [member "payload" (str "QUJD")]))].

Definition ex_media_inf : json :=
  obj [member "event" (str "media");
       member "media" (Some (obj [member "payload" (Some (JNum infinity))]))].

Definition ex_stop : json := obj [member "event" (str "stop")].

Definition ex_audio : json :=
  obj [member "type" (str "response.audio.delta"); member "audio" (str "AAAA")].

Definition ex_output_audio : json :=
  obj [member "type" (str "response.output_audio.delta"); member "delta" (str "AAAA")].

(** An output delta that also has an [audio] member. *)
Definition ex_both : json :=
  obj [member "type" (str "response.output_audio.delta");
       member "delta" (str "DDDD"); member "audio" (str "AAAA")].

Definition ex_transcript : json :=
  obj [member "type" (str "transcript.delta"); member "text" (str "Buongiorno, Revan")].

Definition ex_transcript_caller : json :=
  obj [member "type" (str "transcript.delta"); member "from" (str "caller");
       member "text" (str "Vorrei un appuntamento")].


(** A stand-in for the text of a number; the examples convert none. *)
Definition ex_digits : float -> string := fun _ => "1".

Definition ex_hook : option string := Some "https://n8n.example/webhook/summary".
Definition ex_prompt : string := "Sei una centralinista cordiale.".

(** The connection of call [CA1] at time 100, over an empty store, in an
    environment where no call throws. *)
Definition ex_st0 : St := connection (Some "CA1") 100 ∅ [] [].

(** The caller starts its stream, then the AI socket opens. *)
Definition ex_connect : list (Z * event) :=
  [(101, TwilioMessage (Some ex_start)); (102, OpenAISettled true)].

Definition ex_active : St := (run ex_connect ex_st0).1.

(** The assistant speaks, both sides are transcribed, the caller hangs up and
    both sockets close. *)
Definition ex_talk : list (Z * event) :=
  [(103, TwilioMessage (Some ex_media));
   (104, AiMessage (Some ex_audio));
   (105, AiMessage (Some ex_transcript));
   (106, AiMessage (Some ex_transcript_caller))].

Definition ex_hangup : list (Z * event) :=
  [(107, TwilioMessage (Some ex_stop)); (108, AiClosed); (109, TwilioClosed);
   (110, AiClosed)].


(** ** More ways to read a run *)

(** A caller ['start'] event. *)
Definition is_start (e : Z * event) : bool :=
  match e.2 with
  | TwilioMessage (Some msg) => truthy (eq_lit (get msg "event") "start")
  | _ => false
  end.

(** The route a ['start'] event gives:
    [msg.start?.streamSid || msg.streamSid || null]. *)
Definition route_of (msg : json) : value :=
  if truthy (get_opt (get msg "start") "streamSid")
  then get_opt (get msg "start") "streamSid"
  else if truthy (get msg "streamSid") then get msg "streamSid" else null.


(** The payloads of the caller's media frames, in order. *)
Definition frames_of (evs : list (Z * event)) : list value :=
  omap (fun e => match e.2 with
                 | TwilioMessage (Some msg) =>
                     if is_MediaFrame msg then Some (frame_payload msg) else None
                 | _ => None
                 end) evs.

(** The payloads of the media events sent to the caller, in order. *)
Definition played (out : list call) : list value :=
  omap (fun c => match c with
                 | TwilioSend m => Some (get_opt (get m "media") "payload")
                 | _ => None
                 end) out.

(** The payloads of the audio deltas of the AI socket, in order. *)
Definition deltas_of (evs : list (Z * event)) : list value :=
  omap (fun e => match e.2 with
                 | AiMessage (Some msg) =>
                     if is_AudioDelta (Some msg) then Some (audioPayload msg) else None
                 | _ => None
                 end) evs.



(** The summary requests of a trace. *)
Definition summaries (out : list call) : list (string * Summary) :=
  omap (fun c => match c with Fetch url body => Some (url, body) | _ => None end) out.

(** ** The TwiML endpoint: [app.post('/voice', ...)] *)

(** Text is held as its UTF-8 bytes.  [encodeURIComponent] leaves the letters,
    the digits and [- _ . ! ~ * ' ( )] as they are and writes every other byte
    as [%XX], in upper-case hexadecimal. *)
Definition unreserved (c : ascii) : bool :=
  let n := N_of_ascii c in
  ((65 <=? n) && (n <=? 90) || (97 <=? n) && (n <=? 122) || (48 <=? n) && (n <=? 57)
   || bool_decide (c ∈ ["-"; "_"; "."; "!"; "~"; "*"; "'"; "("; ")"]%char))%N.

Definition hex (n : N) : ascii :=
  (if n <? 10 then ascii_of_N (48 + n) else ascii_of_N (55 + n))%N.

Definition escape (c : ascii) : string :=
  String "%" (String (hex (N_of_ascii c / 16)) (String (hex (N_of_ascii c mod 16)) "")).

Fixpoint encodeURIComponent (s : string) : string :=
  match s with
  | EmptyString => EmptyString
  | String c r =>
      (if unreserved c then String c EmptyString else escape c) +:+ encodeURIComponent r
  end.

(** The percent-decoding that the parser of a query string applies to a
    value (after it has turned every [+] into a space): [%XX] with two
    hexadecimal digits is one byte, anything else stands for itself.  The
    parser then reads the bytes as UTF-8 and puts U+FFFD for what is not;
    that step is left out here, and changes nothing on the bytes of a text
    that [encodeURIComponent] wrote, which are the UTF-8 bytes it was given. *)
Definition hex_value (c : ascii) : option N :=
  let n := N_of_ascii c in
  (if (48 <=? n) && (n <=? 57) then Some (n - 48)
   else if (65 <=? n) && (n <=? 70) then Some (n - 55)
   else if (97 <=? n) && (n <=? 102) then Some (n - 87)
   else None)%N.

Fixpoint percent_decode (s : string) : string :=
  match s with
  | EmptyString => EmptyString
  | String c r =>
      match Ascii.eqb c "%", r with
      | true, String a (String b r') =>
          match hex_value a, hex_value b with
          | Some x, Some y => String (ascii_of_N (16 * x + y)) (percent_decode r')
          | _, _ => String c (percent_decode r)
          end
      | _, _ => String c (percent_decode r)
      end
  end.

Fixpoint plus_to_space (s : string) : string :=
  match s with
  | EmptyString => EmptyString
  | String c r => String (if Ascii.eqb c "+" then " "%char else c) (plus_to_space r)
  end.

Definition query_value (s : string) : string := percent_decode (plus_to_space s).

Definition dquote : string := String "034" EmptyString.
Definition newline : string := String "010" EmptyString.

(** [`wss://${host}/twilio-media?callSid=${encodeURIComponent(callSid)}`];
    a missing [Host] header prints as [undefined]. *)
Definition wsUrl (host : option string) (id : string) : string :=
  "wss://" +:+ default "undefined" host +:+ "/twilio-media?callSid="
  +:+ encodeURIComponent id.

Definition twiml (url : string) : string :=
  "<?xml version=" +:+ dquote +:+ "1.0" +:+ dquote +:+ " encoding=" +:+ dquote
  +:+ "UTF-8" +:+ dquote +:+ "?>" +:+ newline
  +:+ "<Response>" +:+ newline
  +:+ "  <Connect>" +:+ newline
  +:+ "    <Stream url=" +:+ dquote +:+ url +:+ dquote +:+ " />" +:+ newline
  +:+ "  </Connect>" +:+ newline
  +:+ "</Response>".

(** What the endpoint answers: [res.set('Content-Type', ...).send(...)]. *)
Record Reply := mkReply { content_type : string; body : string }.

(** [Number::toString], the decimal text of a number, is not spelled out:
    what follows holds whatever text it gives. *)
Variable Number_toString : float -> string.

(** [String(v)], as a template literal and [encodeURIComponent] apply it to a
    parsed value; [None] where it throws a TypeError.  An array is its
    elements joined by commas, [null] elements left empty.  An object is
    [[object Object]], unless it has a member [toString] of its own: a parsed
    member is never a function, the inherited [valueOf] returns the object
    itself, and the conversion has nothing left to call. *)
Fixpoint ToString (v : json) : option string :=
  match v with
  | JNull => Some "null"
  | JBool b => Some (if b then "true" else "false")
  | JNum x => Some (Number_toString x)
  | JStr s => Some s
  | JArr l =>
      String.concat "," <$>
        mapM (fun e => match e with JNull => Some "" | _ => ToString e end) l
  | JObj m =>
      if bool_decide (is_Some (m !! "toString")) then None
      else Some "[object Object]"
  end.

(** The handler, for the member [CallSid] of the parsed body (a string as
    Twilio posts it; an array of strings when the form field is repeated; any
    parsed value when the body is JSON; [undefined] when it is missing), the
    [Host] header, and the two readings of the clock.

    [callSid] is that value if it is truthy, else a generated name.  The URL
    is built from its text; where that conversion throws, the handler ends
    there, before [sessions.set].  Otherwise a new session object is stored
    under [callSid], whatever was stored there.  [sessions] is a [Map], which
    compares keys without conversion: under a [callSid] that is not a string
    the session is stored where no lookup by a string finds it, and the
    entries under strings, which are all that [m] holds, stay as they are. *)
Definition voice (CallSid : value) (host : option string) (now_id now_start : Z)
    (m : gmap string nat) (h : list Session)
    : gmap string nat * list Session * list call * option Reply :=
  let callSid := match CallSid with
                 | Some c => if truthy CallSid then c else JStr ("call_" +:+ pretty now_id)
                 | None => JStr ("call_" +:+ pretty now_id)
                 end in
  match ToString callSid with
  | Some id =>
      (match callSid with
       | JStr q => <[q := length h]> m
       | _ => m
       end,
       h ++ [newSession now_start],
       [Console Log "[TwiML] callSid"],
       Some {| content_type := "text/xml"; body := twiml (wsUrl host id) |})
  | None => (m, h, [], None)
  end.

(** The same request while a connection is open: the store changes under
    the connection. *)
Definition voice_during (CallSid : value) (host : option string)
    (now_id now_start : Z) (st : St) : St :=
  match voice CallSid host now_id now_start (sessions st) (heap st) with
  | (m, h, _, _) => set_store m h st
  end.

(** Characters that would end the [url] attribute or the element. *)
Definition breaks_xml (c : ascii) : bool :=
  bool_decide (c ∈ ["034"; "<"; ">"; "&"; " "; "010"]%char).

(** ** The relay of [ai_voice_relay_server.js]

    The connection handler of this file is the one above with three frame
    counters and a statistics timer added, and another greeting.  The file
    calls [connectOpenAI] but neither defines nor imports it. *)

Record Stats := mkStats {
  framesFromCaller : nat;
  framesFromAI : nat;
  framesToTwilio : nat;
  dump : bool                (* the interval is set and not cleared *)
}.

Record Conn := mkConn { relay : St; stats : Stats }.

Definition MS (A : Type) : Type := Conn -> outcome A * Conn * list call.

#[global] Instance MS_ret : MRet MS := fun A a c => (Normal a, c, []).

#[global] Instance MS_bind : MBind MS := fun A B f m c =>
  match m c with
  | (Normal a, c1, out1) =>
      match f a c1 with (r, c2, out2) => (r, c2, out1 ++ out2) end
  | (Thrown, c1, out1) => (Thrown, c1, out1)
  end.

(** A step of the relay above, on the relay part of the state. *)
Definition lift {A} (m : M A) : MS A := fun c =>
  match m (relay c) with
  | (r, st, out) => (r, {| relay := st; stats := stats c |}, out)
  end.

Definition count (f : Stats -> Stats) : MS unit := fun c =>
  (Normal tt, {| relay := relay c; stats := f (stats c) |}, []).

Definition tryS_catch (m h : MS unit) : MS unit := fun c =>
  match m c with
  | (Normal a, c1, out1) => (Normal a, c1, out1)
  | (Thrown, c1, out1) =>
      match h c1 with (r, c2, out2) => (r, c2, out1 ++ out2) end
  end.

Definition tryS_ (m : MS unit) : MS unit := tryS_catch m (mret tt).

Definition whenS (b : bool) (m : MS unit) : MS unit := if b then m else mret tt.

(** [framesFromCaller++], [framesFromAI++], [framesToTwilio++],
    [clearInterval(dump)] *)
Definition caller_frame (s : Stats) : Stats :=
  mkStats (S (framesFromCaller s)) (framesFromAI s) (framesToTwilio s) (dump s).

Definition ai_frame (s : Stats) : Stats :=
  mkStats (framesFromCaller s) (S (framesFromAI s)) (framesToTwilio s) (dump s).

Definition twilio_frame (s : Stats) : Stats :=
  mkStats (framesFromCaller s) (framesFromAI s) (S (framesToTwilio s)) (dump s).

Definition clearInterval (s : Stats) : Stats :=
  mkStats (framesFromCaller s) (framesFromAI s) (framesToTwilio s) false.

Definition greeting_alloy : json :=
  obj [member "type" (str "response.create");
       member "response"
         (Some (obj [member "instructions"
                       (str "Saluta in italiano e chiedi come puoi aiutare.");
                     member "modalities" (Some (JArr [JStr "audio"]));
                     member "audio" (Some (obj [member "voice" (str "alloy")]))]))].

(** [twilioWS.on('message', ...)] *)
Definition on_twilio_message_S (raw : option json) : MS unit :=
  tryS_catch
    (msg ← lift (JSON_parse raw);
     lift (not_null msg);;
     if truthy (eq_lit (get msg "event") "start") then
       lift (update (set_streamSid
               (js_or (js_or (get_opt (get msg "start") "streamSid")
                             (get msg "streamSid")) null)));;
       lift (emit (Console Log "[Twilio] START"))
     else if truthy (js_and (eq_lit (get msg "event") "media")
                         (get_opt (get msg "media") "payload")) then
       count caller_frame;;
       ready ← lift (read (fun st => aiReady st && is_set (aiWS st)));
       whenS ready
         (lift (perform (AiSend (append (get_opt (get msg "media") "payload")))))
     else if truthy (eq_lit (get msg "event") "stop") then
       lift (emit (Console Log "[Twilio] STOP"));;
       count clearInterval;;
       ai ← lift (read aiWS);
       whenS (is_set ai)
         (lift (try_ (perform (AiSend commit)));;
          lift (try_ (perform (AiSend closing)));;
          lift (try_ (perform AiClose)));;
       lift (try_ (perform TwilioClose))
     else mret tt)
    (lift (emit (Console Error "WS parse error:"))).

(** [aiWS.on('message', ...)] *)
Definition on_ai_message_S (now : Z) (raw : option json) : MS unit :=
  tryS_
    (msg ← lift (JSON_parse raw);
     lift (not_null msg);;
     whenS (truthy (js_and (isAudioDelta msg) (audioPayload msg)))
       (count ai_frame;;
        sid ← lift (read streamSid);
        if truthy sid then
          lift (perform (TwilioSend (media sid (audioPayload msg))));;
          count twilio_frame
        else lift (emit (Console Warn "[Twilio] missing streamSid; audio skipped")));;
     lift (when (truthy (js_and (eq_lit (get msg "type") "transcript.delta")
                               (get msg "text")))
             (on_session (push {| from := js_or (get msg "from") (str "agent");
                                  text := get msg "text"; t := now |})));;
     lift (when (truthy (js_and (eq_lit (get msg "type") "extracted.fields")
                               (get msg "fields")))
             (on_session (assign_fields (get msg "fields"))))).

(** [aiWS.on('close', ...)] and [twilioWS.on('close', ...)] *)
Definition on_ai_close_S : MS unit :=
  count clearInterval;; lift (try_ (perform TwilioClose)).

Definition on_twilio_close_S (now : Z) : MS unit :=
  count clearInterval;; lift (on_twilio_close now).

(** [connectOpenAI] is not bound in this file: evaluating the call in the
    [try] block throws a ReferenceError, whatever the AI service would have
    answered, and the [catch] block runs. *)
Definition connectOpenAI_S (opens : bool) : M socket := throw.

(** The rest of the connection handler, from the [try] on. *)
Definition connected_S (opens : bool) : MS unit :=
  tryS_catch
    (s ← lift (connectOpenAI_S opens);
     lift (update (set_aiWS (Some s)));;
     lift (update (set_aiReady true));;
     lift (emit (Console Log "[OpenAI] realtime socket connected"));;
     lift (perform (AiSend greeting_alloy));;
     lift (update (set_registered Active)))
    (lift (emit (Console Error "[OpenAI] WS error at connect:"));;
     lift (try_ (perform TwilioClose));;
     lift (update (set_registered Failed))).

(** The callback of [setInterval]: it runs as long as the interval is set. *)
Definition stat_line (s : Stats) : string :=
  "[STAT] in=" +:+ pretty (framesFromCaller s) +:+ " ai=" +:+ pretty (framesFromAI s)
  +:+ " out=" +:+ pretty (framesToTwilio s).

Definition on_interval : MS unit := fun c =>
  if dump (stats c) then (Normal tt, c, [Console Log (stat_line (stats c))])
  else (Normal tt, c, []).

(** The start of the handler: the connection as above, the counters at
    zero, the interval set. *)
Definition connection_S (query : option string) (now : Z)
    (m : gmap string nat) (h : list Session) (o : list bool) : Conn :=
  {| relay := connection query now m h o; stats := mkStats 0 0 0 true |}.

(** What happens next: an event of the relay, or the interval firing.  The
    event [OpenAISettled] stands for the evaluation of the [try] block, which
    in this file ends in the [catch] block at once: the runs in which other
    events come before it are more than the handler can see. *)
Inductive tick :=
  | Event (e : event)
  | Interval.

Definition dispatch_S (now : Z) (k : tick) : MS unit :=
  match k with
  | Interval => on_interval
  | Event e =>
      p ← lift (read registered);
      match e, p with
      | TwilioMessage raw, _ => on_twilio_message_S raw
      | OpenAISettled opens, Connecting => connected_S opens
      | AiMessage raw, Active => on_ai_message_S now raw
      | AiClosed, Active => on_ai_close_S
      | TwilioClosed, Active => on_twilio_close_S now
      | FetchSettled ok, _ => lift (fetch_settled ok)
      | _, _ => mret tt
      end
  end.

Definition step_S (now : Z) (k : tick) (c : Conn) : Conn * list call :=
  match dispatch_S now k c with (_, c', out) => (c', out) end.

Fixpoint run_S (ks : list (Z * tick)) (c : Conn) : Conn * list call :=
  match ks with
  | [] => (c, [])
  | (now, k) :: rest =>
      match step_S now k c with
      | (c1, out1) =>
          match run_S rest c1 with (c2, out2) => (c2, out1 ++ out2) end
      end
  end.

(** The same handler without the counters and the timer, with a greeting
    [g]: the [try] block and the event loop built on it. *)
Definition connected_with (g : json) (opens : bool) : M unit :=
  try_catch
    (s ← connectOpenAI_S opens;
     update (set_aiWS (Some s));;
     update (set_aiReady true);;
     emit (Console Log "[OpenAI] realtime socket connected");;
     perform (AiSend g);;
     update (set_registered Active))
    (emit (Console Error "[OpenAI] WS error at connect:");;
     try_ (perform TwilioClose);;
     update (set_registered Failed)).

Definition dispatch_with (g : json) (now : Z) (e : event) : M unit :=
  p ← read registered;
  match e, p with
  | TwilioMessage raw, _ => on_twilio_message raw
  | OpenAISettled opens, Connecting => connected_with g opens
  | AiMessage raw, Active => on_ai_message now raw
  | AiClosed, Active => on_ai_close
  | TwilioClosed, Active => on_twilio_close now
  | FetchSettled ok, _ => fetch_settled ok
  | _, _ => mret tt
  end.

Definition step_with (g : json) (now : Z) (e : event) (st : St) : St * list call :=
  match dispatch_with g now e st with (_, st', out) => (st', out) end.

(** The events among the ticks, and the socket calls and summary requests
    among the calls (the console left out). *)
Definition events_of (ks : list (Z * tick)) : list (Z * event) :=
  omap (fun k => match k.2 with Event e => Some (k.1, e) | Interval => None end) ks.

Definition is_stop (k : Z * tick) : bool :=
  match k.2 with
  | Event (TwilioMessage (Some msg)) => truthy (eq_lit (get msg "event") "stop")
  | _ => false
  end.

Definition settles (k : Z * tick) : bool :=
  match k.2 with Event (OpenAISettled _) => true | _ => false end.

Fixpoint run_with (g : json) (evs : list (Z * event)) (st : St) : St * list call :=
  match evs with
  | [] => (st, [])
  | (now, e) :: rest =>
      match step_with g now e st with
      | (st1, out1) =>
          match run_with g rest st1 with (st2, out2) => (st2, out1 ++ out2) end
      end
  end.

(** A trace without the lines written to the console. *)
Definition is_console (c : call) : bool :=
  match c with Console _ _ => true | _ => false end.

Definition effects (out : list call) : list call :=
  List.filter (fun c => negb (is_console c)) out.

(** The lines the statistics timer writes. *)
Definition is_stat (c : call) : bool :=
  match c with
  | Console Log tag => String.prefix "[STAT]" tag
  | _ => false
  end.

Definition stat_lines (out : list call) : list call := List.filter is_stat out.

(** The calls on the AI socket, in order. *)
Definition is_ai_call (c : call) : bool :=
  match c with AiSend _ | AiClose => true | _ => false end.

Definition ai_calls (out : list call) : list call := List.filter is_ai_call out.

(** ** The audio test of the fragment at the top of [ai_voice_relay_server.js]

    The message callback of that fragment accepts more shapes of audio event:
    two more event types, a [chunk] member, and bytes nested in the output. *)

(** [o?.[0]]: the first element of an array, the first character of a text,
    the member [0] of an object. *)
Definition index0 (o : value) : value :=
  match o with
  | Some (JArr l) => head l
  | Some (JStr s) => JStr <$> head (chars s)
  | Some (JObj m) => m !! "0"
  | _ => undefined
  end.

Definition isAudioDelta_any (msg : json) : value :=
  js_or (js_or (js_or
    (js_and (eq_lit (get msg "type") "response.audio.delta") (get msg "audio"))
    (js_and (eq_lit (get msg "type") "response.output_audio.delta") (get msg "delta")))
    (js_and (eq_lit (get msg "type") "response.audio.chunk") (get msg "chunk")))
    (js_and (eq_lit (get msg "type") "response.output_audio.chunk") (get msg "chunk")).

(** [o?.output?.[0]?.content?.[0]?.audio?.bytes] *)
Definition output_bytes (o : value) : value :=
  get_opt (get_opt (index0 (get_opt (index0 (get_opt o "output")) "content")) "audio")
          "bytes".

Definition nestedBytes (msg : json) : value :=
  js_or (output_bytes (Some msg)) (output_bytes (get_opt (Some msg) "response")).

Definition audioPayload_any (msg : json) : value :=
  js_or (js_or (js_or (get msg "audio") (get msg "delta")) (get msg "chunk"))
        (nestedBytes msg).

(** [if (isAudioDelta || audioPayload)] and, inside it, [if (payload && streamSid)] *)
Definition counted_any (msg : json) : bool :=
  truthy (js_or (isAudioDelta_any msg) (audioPayload_any msg)).

Definition forwarded_any (msg : json) (sid : value) : bool :=
  counted_any msg && truthy (js_and (audioPayload_any msg) sid).

(** ** Relations used in the proofs *)

(** A result with the counters and the timer put aside. *)
Definition erase {A} (x : outcome A * Conn * list call) : outcome A * St * list call :=
  (x.1.1, relay x.1.2, x.2).

(** [sim m ms]: with the counters and the timer put aside, [ms] does what [m]
    does. *)
Definition sim {A} (m : M A) (ms : MS A) : Prop :=
  forall c, erase (ms c) = m (relay c).

(** [wpS m Q c]: running [m] from [c] ends in an outcome, a state and a list
    of calls that satisfy [Q]. *)
Definition wpS {A} (m : MS A) (Q : outcome A -> Conn -> list call -> Prop) (c : Conn) : Prop :=
  Q (m c).1.1 (m c).1.2 (m c).2.

(** What clears the interval: a ['stop'] of the caller, and the close of
    either socket once their handlers are registered. *)
Definition clears (p : phase) (k : Z * tick) : bool :=
  match k.2, p with
  | Event (TwilioMessage _), _ => is_stop k
  | Event AiClosed, Active | Event TwilioClosed, Active => true
  | _, _ => false
  end.

(** No AI socket yet. *)
Definition unconnected (st : St) : Prop :=
  registered st <> Active /\ aiWS st = None /\ aiReady st = false.

(** ** Proof support: a weakest-precondition reading of the handler monad *)

Arguments obj : simpl never.
Arguments media : simpl never.
Arguments append : simpl never.
Arguments session_update : simpl never.
Arguments pretty : simpl never.

(** [wp m Q st]: running [m] from [st] ends in an outcome, a state and a list
    of calls that satisfy [Q]. *)
Definition wp {A} (m : M A) (Q : outcome A -> St -> list call -> Prop) (st : St) : Prop :=
  Q (m st).1.1 (m st).1.2 (m st).2.

Lemma wp_ret {A} (a : A) Q st : Q (Normal a) st [] -> wp (mret a) Q st.
Proof. done. Qed.

Lemma wp_throw {A} (Q : outcome A -> St -> list call -> Prop) st :
  Q Thrown st [] -> wp throw Q st.
Proof. done. Qed.

Lemma wp_bind {A B} (m : M A) (f : A -> M B) Q st :
  wp m (fun r st1 out1 =>
          match r with
          | Normal a => wp (f a) (fun r2 st2 out2 => Q r2 st2 (out1 ++ out2)) st1
          | Thrown => Q Thrown st1 out1
          end) st ->
  wp (m ≫= f) Q st.
Proof.
  unfold wp, mbind, M_bind. destruct (m st) as [[[a|] st1] out1]; simpl; [|done].
  by destruct (f a st1) as [[r2 st2] out2].
Qed.

Lemma wp_try_catch (m h : M unit) Q st :
  wp m (fun r st1 out1 =>
          match r with
          | Normal a => Q (Normal a) st1 out1
          | Thrown => wp h (fun r2 st2 out2 => Q r2 st2 (out1 ++ out2)) st1
          end) st ->
  wp (try_catch m h) Q st.
Proof.
  unfold wp, try_catch. destruct (m st) as [[[a|] st1] out1]; simpl; [done|].
  by destruct (h st1) as [[r2 st2] out2].
Qed.

Lemma wp_try (m : M unit) Q st :
  wp m (fun r st1 out1 => Q (Normal tt) st1 out1) st -> wp (try_ m) Q st.
Proof.
  intros H. apply wp_try_catch. unfold wp in *.
  destruct (m st) as [[[[]|] st1] out1]; simpl in *; [done|].
  by rewrite app_nil_r.
Qed.

Lemma wp_emit c Q st : Q (Normal tt) st [c] -> wp (emit c) Q st.
Proof. done. Qed.

Lemma wp_update f Q st : Q (Normal tt) (f st) [] -> wp (update f) Q st.
Proof. done. Qed.

Lemma wp_read {A} (f : St -> A) Q st : Q (Normal (f st)) st [] -> wp (read f) Q st.
Proof. done. Qed.

(** A call on a socket returns or throws, and uses up what the environment
    had to say about it. *)
Lemma wp_perform c (Q : outcome unit -> St -> list call -> Prop) st :
  (forall r o, Q r (set_throws o st) [c]) -> wp (perform c) Q st.
Proof.
  intros H. unfold wp, perform. destruct st as [? ? ? ? ? ? ? ? [|[] o]]; simpl.
  - apply (H (Normal tt) []).
  - apply (H Thrown o).
  - apply (H (Normal tt) o).
Qed.

Lemma wp_step now e (Q : St -> list call -> Prop) st :
  wp (dispatch now e) (fun _ st' out => Q st' out) st ->
  Q (step now e st).1 (step now e st).2.
Proof. unfold wp, step. by destruct (dispatch now e st) as [[r st'] out]. Qed.

Ltac wp_rule :=
  lazymatch goal with
  | |- wp (_ ≫= _) _ _ => apply wp_bind
  | |- wp (try_catch _ _) _ _ => apply wp_try_catch
  | |- wp (try_ _) _ _ => apply wp_try
  | |- wp (mret _) _ _ => apply wp_ret
  | |- wp throw _ _ => apply wp_throw
  | |- wp (emit _) _ _ => apply wp_emit
  | |- wp (update _) _ _ => apply wp_update
  | |- wp (read _) _ _ => apply wp_read
  | |- wp (perform _) _ _ => apply wp_perform; intros ? ?
  | |- wp (when ?b _) _ _ => unfold when; destruct b eqn:?
  | |- wp (if ?b then _ else _) _ _ => destruct b eqn:?
  | |- wp (JSON_parse ?raw) _ _ => unfold JSON_parse; destruct raw as [?|] eqn:?
  | |- wp (not_null ?msg) _ _ => unfold not_null; destruct msg eqn:?
  | |- wp (match ?x with _ => _ end) _ _ => destruct x eqn:?
  | |- wp (on_session _) _ _ => unfold on_session
  | |- wp (finalizeAndNotify _ _) _ _ => unfold finalizeAndNotify
  | |- wp (connectOpenAI _) _ _ => unfold connectOpenAI
  | |- match ?r with Normal _ => _ | Thrown => _ end => destruct r
  end.

Ltac wp_run := repeat (cbn beta iota; wp_rule).

Ltac wp_handlers :=
  unfold dispatch, on_twilio_message, on_ai_message, on_ai_close,
         on_twilio_close, connected, fetch_settled.

Lemma step_frame now e st :
  sessions (step now e st).1 = sessions st
  /\ callSid (step now e st).1 = callSid st
  /\ session (step now e st).1 = session st
  /\ length (heap (step now e st).1) = length (heap st).
Proof.
  apply (wp_step now e (fun st' _ => sessions st' = sessions st /\ callSid st' = callSid st
     /\ session st' = session st /\ length (heap st') = length (heap st))).
  wp_handlers. wp_run; simpl; rewrite ?length_alter; done.
Qed.

(** ** Runs *)

Lemma run_app evs1 evs2 st :
  run (evs1 ++ evs2) st =
  ((run evs2 (run evs1 st).1).1, (run evs1 st).2 ++ (run evs2 (run evs1 st).1).2).
Proof.
  revert st. induction evs1 as [|[now e] evs1 IH]; intros st; simpl.
  - by destruct (run evs2 st).
  - destruct (step now e st) as [st1 out1]. rewrite IH.
    destruct (run evs1 st1) as [st2 out2]; simpl.
    destruct (run evs2 st2) as [st3 out3]; simpl. by rewrite app_assoc.
Qed.

Lemma run_cons now e evs st :
  run ((now, e) :: evs) st =
  ((run evs (step now e st).1).1, (step now e st).2 ++ (run evs (step now e st).1).2).
Proof.
  simpl. destruct (step now e st) as [st1 out1]; simpl.
  by destruct (run evs st1).
Qed.

(** A property of states that every step keeps holds along a run, and a
    property of calls that every step from such a state meets holds of the
    whole trace. *)
Lemma run_invariant (I : St -> Prop) (P : call -> Prop) evs st :
  (forall now e st, I st -> I (step now e st).1) ->
  (forall now e st, I st -> Forall P (step now e st).2) ->
  I st -> I (run evs st).1 /\ Forall P (run evs st).2.
Proof.
  intros HI HP. revert st. induction evs as [|[now e] evs IH]; intros st Hst.
  - by split.
  - rewrite run_cons; simpl. destruct (IH (step now e st).1) as [? ?]; [by apply HI|].
    split; [done|]. apply Forall_app; split; [by apply HP | done].
Qed.

Lemma reachable_run evs st : reachable st -> reachable (run evs st).1.
Proof.
  revert st. induction evs as [|[now e] evs IH]; intros st Hst; [done|].
  rewrite run_cons; simpl. apply IH. by constructor.
Qed.

(** ** Which handlers are registered *)

Lemma step_registered now e st :
  match registered st with
  | Active => registered (step now e st).1 = Active
  | Failed => registered (step now e st).1 = Failed
  | Connecting =>
      match e with
      | OpenAISettled true => registered (step now e st).1 <> Connecting
      | OpenAISettled false => registered (step now e st).1 = Failed
      | _ => registered (step now e st).1 = Connecting
      end
  end.
Proof.
  apply (wp_step now e (fun st' _ =>
    match registered st with
    | Active => registered st' = Active
    | Failed => registered st' = Failed
    | Connecting =>
        match e with
        | OpenAISettled true => registered st' <> Connecting
        | OpenAISettled false => registered st' = Failed
        | _ => registered st' = Connecting
        end
    end)).
  wp_handlers. wp_run; simpl; simplify_eq; repeat case_match; simplify_eq; done.
Qed.

Lemma step_Active now e st :
  registered st = Active -> registered (step now e st).1 = Active.
Proof. intros H. generalize (step_registered now e st). by rewrite H. Qed.

Lemma step_Failed now e st :
  registered st = Failed -> registered (step now e st).1 = Failed.
Proof. intros H. generalize (step_registered now e st). by rewrite H. Qed.

Lemma run_Active evs st :
  registered st = Active -> registered (run evs st).1 = Active.
Proof.
  intros H. apply (run_invariant (fun st => registered st = Active) (fun _ => True)); auto.
  - intros. by apply step_Active.
  - intros. by apply Forall_true.
Qed.

Lemma run_Connecting evs st :
  registered st = Connecting ->
  Forall (fun e => is_OpenAISettled e = false) evs ->
  registered (run evs st).1 = Connecting.
Proof.
  revert st. induction evs as [|[now e] evs IH]; intros st Hst Hevs; [done|].
  rewrite run_cons; simpl. inversion_clear Hevs as [|? ? He Hrest].
  apply IH; [|done]. generalize (step_registered now e st). rewrite Hst.
  by destruct e as [| | [] | | |].
Qed.

(** ** Where the summary is requested *)

Lemma step_quiet now e st :
  registered st <> Active \/ is_TwilioClosed (now, e) = false ->
  Forall (fun c => notifies c = false) (step now e st).2.
Proof.
  intros H.
  apply (wp_step now e (fun _ out => Forall (fun c => notifies c = false) out)).
  wp_handlers. wp_run; simpl; simplify_eq;
    repeat (apply Forall_cons; split; [done|]); try apply Forall_nil;
    try done; (destruct H as [H|H]; [congruence | by vm_compute in H]).
Qed.

Lemma step_close_finalizes now st :
  registered st = Active ->
  List.filter is_Finalize (step now TwilioClosed st).2 = [Finalize (callSid st)]
  /\ (length (List.filter is_Fetch (step now TwilioClosed st).2) <= 1)%nat.
Proof.
  intros H.
  apply (wp_step now TwilioClosed (fun _ out =>
    List.filter is_Finalize out = [Finalize (callSid st)]
    /\ (length (List.filter is_Fetch out) <= 1)%nat)).
  wp_handlers. wp_run; simpl; try congruence; split; solve [done | lia].
Qed.

(** ** Reachable states are well formed *)

Lemma connection_well_formed query now m h o :
  store_ok m h -> well_formed (connection query now m h o).
Proof.
  intros Hok. unfold connection.
  set (id := match query with
             | Some q => if String.eqb q "" then "call_" +:+ pretty now else q
             | None => "call_" +:+ pretty now
             end).
  assert (Hid : id <> "").
  { unfold id. destruct query as [q|]; [|done].
    destruct (String.eqb q "") eqn:E; [done|]. by intros ->. }
  destruct (m !! id) as [r|] eqn:Hr; simpl.
  - repeat split; simpl; try done;
      try (by rewrite lookup_insert_eq); try (by left).
    apply map_Forall_insert_2; [by apply (Hok id r)|done].
  - repeat split; simpl; try done;
      try (by rewrite lookup_insert_eq); try (by left).
    apply map_Forall_insert_2; [rewrite length_app; simpl; lia|].
    intros k r Hk. rewrite length_app. specialize (Hok k r Hk). simpl in *. lia.
Qed.

Lemma connection_init query now m h o :
  registered (connection query now m h o) = Connecting
  /\ streamSid (connection query now m h o) = null
  /\ aiWS (connection query now m h o) = None
  /\ aiReady (connection query now m h o) = false.
Proof. unfold connection. by case_match. Qed.

Lemma truthy_or_null a b :
  js_or (js_or a b) null = null \/ truthy (js_or (js_or a b) null) = true.
Proof.
  unfold js_or. destruct (truthy a) eqn:Ha; rewrite ?Ha; [by right|].
  destruct (truthy b) eqn:Hb; [by right | by left].
Qed.

Lemma step_well_formed now e st :
  well_formed st -> well_formed (step now e st).1.
Proof.
  intros (Hok & Hid & Hs & Hr & Ha & Hc & Hsid).
  apply (wp_step now e (fun st' _ => well_formed st')).
  wp_handlers. unfold well_formed.
  wp_run; simpl; simplify_eq;
    repeat split; try done; try congruence;
    try (intros; exfalso; congruence);
    try apply truthy_or_null;
    try (intros k r Hk; rewrite !length_alter; by apply (Hok k r Hk));
    try (apply Hc; congruence); try (apply Ha; congruence);
    try (by intros; eauto).
Qed.

Lemma reachable_well_formed st : reachable st -> well_formed st.
Proof.
  induction 1; [by apply connection_well_formed | by apply step_well_formed].
Qed.

Lemma well_formed_session st :
  well_formed st -> is_Some (the_session st).
Proof.
  intros (Hok & _ & Hs & _). apply lookup_lt_is_Some. by apply (Hok _ _ Hs).
Qed.

(** ** The summary notification *)

Lemma finalizeAndNotify_skips now id st :
  lookup_session id st = None \/ truthy webhook = false ->
  finalizeAndNotify now id st = (Normal tt, st, []).
Proof.
  intros H. unfold finalizeAndNotify, mbind, M_bind, read; simpl.
  destruct (lookup_session id st) as [s|] eqn:Hs;
    destruct N8N_SUMMARY_WEBHOOK as [url|] eqn:Hurl; try done.
  destruct (truthy webhook) eqn:Hw; [|done].
  by destruct H.
Qed.

Lemma step_no_fetch now e st :
  truthy webhook = false -> Forall (fun c => is_Fetch c = false) (step now e st).2.
Proof.
  intros Hw.
  apply (wp_step now e (fun _ out => Forall (fun c => is_Fetch c = false) out)).
  wp_handlers. wp_run; simpl; simplify_eq;
    repeat (apply Forall_cons; split; [done|]); try (by apply Forall_nil); congruence.
Qed.

(** C10.  [finalizeAndNotify] returns at once, with no call made and the state
    as it was, when [sessions] has no session for the [callSid] or when
    [N8N_SUMMARY_WEBHOOK] is unset (or empty); and with the endpoint unset no
    run of a call, from any state, makes a summary request. *)
Theorem finalizeAndNotify_guarded_no_op :
  (forall now id st,
      lookup_session id st = None \/ truthy webhook = false ->
      finalizeAndNotify now id st = (Normal tt, st, []))
  /\ (truthy webhook = false ->
      forall evs st, Forall (fun c => is_Fetch c = false) (run evs st).2).
Proof.
  split; [apply finalizeAndNotify_skips|].
  intros Hw evs st.
  apply (run_invariant (fun _ => True) (fun c => is_Fetch c = false)); auto.
  intros. by apply step_no_fetch.
Qed.

Lemma step_connect_rejected now st :
  registered st = Connecting ->
  socket_calls (step now (OpenAISettled false) st).2 = [TwilioClose]
  /\ registered (step now (OpenAISettled false) st).1 = Failed.
Proof.
  intros H.
  apply (wp_step now (OpenAISettled false) (fun st' out =>
    socket_calls out = [TwilioClose] /\ registered st' = Failed)).
  wp_handlers. wp_run; simpl; try congruence; done.
Qed.

Lemma run_quiet evs st :
  registered st = Failed \/
    (registered st = Connecting /\ Forall (fun e => is_OpenAISettled e = false) evs) ->
  Forall (fun c => notifies c = false) (run evs st).2.
Proof.
  revert st. induction evs as [|[now e] evs IH]; intros st H; [by apply Forall_nil|].
  rewrite run_cons; simpl. apply Forall_app; split.
  - apply step_quiet. left. destruct H as [H|[H _]]; congruence.
  - apply IH. destruct H as [H|[H Hevs]].
    + left. by apply step_Failed.
    + right. inversion_clear Hevs as [|? ? He Hrest]. split; [|done].
      generalize (step_registered now e st). rewrite H.
      by destruct e as [| | [] | | |].
Qed.

(** C3.  When [connectOpenAI] rejects, the handler closes the caller socket
    (the only call it makes on a socket) and the whole trace of the call, the
    events before the rejection and any events after it, holds no call of
    [finalizeAndNotify] and no summary request. *)
Theorem connect_failure_never_notifies query now m h o pre t post :
  Forall (fun e => is_OpenAISettled e = false) pre ->
  let st0 := connection query now m h o in
  socket_calls (step t (OpenAISettled false) (run pre st0).1).2 = [TwilioClose]
  /\ Forall (fun c => is_Finalize c = false /\ is_Fetch c = false)
       (run (pre ++ (t, OpenAISettled false) :: post) st0).2.
Proof.
  intros Hpre st0.
  assert (Hc : registered (run pre st0).1 = Connecting)
    by (apply run_Connecting; [apply connection_init | done]).
  split; [by apply step_connect_rejected|].
  apply (Forall_impl (fun c => notifies c = false));
    [|intros c Hn; by apply orb_false_iff in Hn].
  rewrite run_app, run_cons; simpl. apply Forall_app; split.
  - apply run_quiet. right. split; [apply connection_init | done].
  - apply Forall_app; split.
    + apply step_quiet. left. congruence.
    + apply run_quiet. left. by apply step_connect_rejected.
Qed.

(** ** Exactly one finalize-and-notify *)

Lemma run_finalize_count evs st :
  registered st = Active ->
  List.filter is_Finalize (run evs st).2
    = replicate (length (List.filter is_TwilioClosed evs)) (Finalize (callSid st))
  /\ (length (List.filter is_Fetch (run evs st).2)
      <= length (List.filter is_TwilioClosed evs))%nat.
Proof.
  revert st. induction evs as [|[now e] evs IH]; intros st H; [done|].
  rewrite run_cons; simpl.
  destruct (IH (step now e st).1) as [IH1 IH2]; [by apply step_Active|].
  rewrite !List.filter_app, IH1, length_app.
  destruct (step_frame now e st) as (_ & -> & _).
  destruct (is_TwilioClosed (now, e)) eqn:He.
  - destruct e; try done. destruct (step_close_finalizes now st H) as [-> ?].
    simpl. split; [done | lia].
  - assert (Hq : Forall (fun c => notifies c = false) (step now e st).2)
      by (apply step_quiet; by right).
    assert (List.filter is_Finalize (step now e st).2 = []
            /\ List.filter is_Fetch (step now e st).2 = []) as [-> ->].
    { induction Hq as [|c l Hc _ [IHa IHb]]; [done|]. simpl.
      apply orb_false_iff in Hc as [-> ->]. done. }
    done.
Qed.

Lemma step_ai_close now st :
  registered st = Active -> (step now AiClosed st).2 = [TwilioClose].
Proof.
  intros H.
  apply (wp_step now AiClosed (fun _ out => out = [TwilioClose])).
  wp_handlers. wp_run; simpl; congruence.
Qed.

Lemma step_close_fetches now st :
  well_formed st -> registered st = Active -> truthy webhook = true ->
  length (List.filter is_Fetch (step now TwilioClosed st).2) = 1%nat.
Proof.
  intros Hwf H Hw.
  destruct (well_formed_session st Hwf) as [s Hs].
  destruct Hwf as (_ & _ & Hid & _).
  assert (Hl : lookup_session (callSid st) st = Some s)
    by (unfold lookup_session; rewrite Hid; done).
  apply (wp_step now TwilioClosed (fun _ out =>
    length (List.filter is_Fetch out) = 1%nat)).
  wp_handlers. wp_run; simpl; try congruence.
  all: unfold webhook in Hw; simplify_eq; done.
Qed.

Lemma run_fetch_count evs st :
  well_formed st -> registered st = Active -> truthy webhook = true ->
  length (List.filter is_Fetch (run evs st).2)
    = length (List.filter is_TwilioClosed evs).
Proof.
  intros Hwf H Hw. revert st Hwf H.
  induction evs as [|[now e] evs IH]; intros st Hwf H; [done|].
  rewrite run_cons; simpl. rewrite List.filter_app, length_app.
  rewrite IH; [|by apply step_well_formed|by apply step_Active].
  destruct (is_TwilioClosed (now, e)) eqn:He.
  - destruct e; try done. by rewrite step_close_fetches.
  - assert (Hq : Forall (fun c => notifies c = false) (step now e st).2)
      by (apply step_quiet; by right).
    assert (List.filter is_Fetch (step now e st).2 = []) as ->; [|done].
    induction Hq as [|c l Hc _ IHq]; [done|]. simpl.
    by apply orb_false_iff in Hc as [_ ->].
Qed.

(** C2.  Once the relay is active, the calls of [finalizeAndNotify] in the
    trace of a call are as many as the ['close'] events of the caller socket,
    each for the [callSid] of the call: with the single ['close'] event of the
    socket there is exactly one, whatever the ['close'] events of the AI
    socket, whose handler does nothing but close the caller socket.  At most
    one summary request is made, and exactly one when the endpoint is set. *)
Theorem finalize_exactly_once st evs :
  registered st = Active ->
  length (List.filter is_TwilioClosed evs) = 1%nat ->
  List.filter is_Finalize (run evs st).2 = [Finalize (callSid st)]
  /\ (length (List.filter is_Fetch (run evs st).2) <= 1)%nat
  /\ (reachable st -> truthy webhook = true ->
      length (List.filter is_Fetch (run evs st).2) = 1%nat)
  /\ (forall now st', registered st' = Active ->
        (step now AiClosed st').2 = [TwilioClose]).
Proof.
  intros H Hone. destruct (run_finalize_count evs st H) as [Hf Hn].
  rewrite Hone in Hf, Hn. repeat split; try done.
  - intros Hr Hw. rewrite <- Hone.
    apply run_fetch_count; [by apply reachable_well_formed | done | done].
  - intros. by apply step_ai_close.
Qed.

(** ** The route of outbound audio *)



Lemma eq_lit_true v lit : truthy (eq_lit v lit) = true -> v = str lit.
Proof.
  destruct v as [[]|]; try done. simpl. intros H.
  apply String.eqb_eq in H. by subst.
Qed.

Lemma js_and_true a b : truthy (js_and a b) = true -> truthy a = true /\ truthy b = true.
Proof. unfold js_and. destruct (truthy a) eqn:Ha; [done | by rewrite Ha]. Qed.



Lemma isAudioDelta_type msg :
  truthy (isAudioDelta msg) = true ->
  get msg "type" = str "response.audio.delta"
  \/ get msg "type" = str "response.output_audio.delta".
Proof.
  unfold isAudioDelta, js_or. intros H.
  destruct (truthy (js_and (eq_lit (get msg "type") "response.audio.delta") (get msg "audio")))
    eqn:H1.
  - left. apply js_and_true in H1 as [H1 _]. by apply eq_lit_true.
  - right. apply js_and_true in H as [H _]. by apply eq_lit_true.
Qed.

(** An event that passes the audio test is neither a transcript nor a fields
    event: the three tests read the same [type]. *)
Lemma audio_not_session msg lit x :
  truthy (js_and (isAudioDelta msg) (audioPayload msg)) = true ->
  lit = "transcript.delta" \/ lit = "extracted.fields" ->
  truthy (js_and (eq_lit (get msg "type") lit) x) = false.
Proof.
  intros Ha Hl. apply js_and_true in Ha as [Ha _].
  apply isAudioDelta_type in Ha.
  destruct (truthy (js_and (eq_lit (get msg "type") lit) x)) eqn:H; [|done].
  apply js_and_true in H as [H _]. apply eq_lit_true in H.
  destruct Ha as [Ha|Ha], Hl as [->| ->]; rewrite Ha in H; discriminate H.
Qed.

Ltac audio_clash :=
  match goal with
  | Ha : truthy (js_and (isAudioDelta ?msg) _) = true,
    H : truthy (js_and (eq_lit (get ?msg "type") ?lit) ?x) = true |- _ =>
      rewrite (audio_not_session msg lit x Ha) in H by auto; discriminate H
  end.





(** ** The two shapes of an audio delta *)

Lemma eq_lit_str s lit : truthy (eq_lit (str s) lit) = String.eqb s lit.
Proof. done. Qed.

Lemma is_AudioDelta_shapes msg :
  is_AudioDelta (Some msg) = true <->
  (get msg "type" = str "response.audio.delta" /\ truthy (get msg "audio") = true)
  \/ (get msg "type" = str "response.output_audio.delta"
      /\ truthy (get msg "delta") = true).
Proof.
  assert (Hm : is_AudioDelta (Some msg)
               = truthy (js_and (isAudioDelta msg) (audioPayload msg)))
    by by destruct msg.
  rewrite Hm. clear Hm. unfold isAudioDelta, audioPayload. split.
  - intros H. apply js_and_true in H as [H _]. unfold js_or in H.
    destruct (truthy (js_and (eq_lit (get msg "type") "response.audio.delta")
                             (get msg "audio"))) eqn:H1.
    + left. apply js_and_true in H1 as [H1 ?]. split; [by apply eq_lit_true | done].
    + right. apply js_and_true in H as [H ?]. split; [by apply eq_lit_true | done].
  - intros [[Ht Ha]|[Ht Hd]]; rewrite Ht; unfold js_and, js_or;
      rewrite !eq_lit_str; simpl; rewrite ?Ha, ?Hd; simpl; rewrite ?Ha, ?Hd; try done.
    destruct (truthy (get msg "audio")) eqn:Ha; by rewrite ?Ha, ?Hd.
Qed.

Lemma step_ai_audio now msg st :
  registered st = Active ->
  truthy (streamSid st) = true ->
  (step now (AiMessage (Some msg)) st).2 =
    if is_AudioDelta (Some msg)
    then [TwilioSend (media (streamSid st) (audioPayload msg))]
    else [].
Proof.
  intros H Hs.
  apply (wp_step now (AiMessage (Some msg)) (fun _ out =>
    out = if is_AudioDelta (Some msg)
          then [TwilioSend (media (streamSid st) (audioPayload msg))] else [])).
  wp_handlers. wp_run; simpl; simplify_eq; try congruence;
    try audio_clash; try done.
  all: match goal with
       | H : truthy (js_and (isAudioDelta _) _) = _ |- _ => by rewrite H
       end.
Qed.

(** C4 (as amended).  An AI event passes the audio test exactly under the
    two shapes: [type] is ['response.audio.delta'] with a (non-empty) [audio]
    member, or [type] is ['response.output_audio.delta'] with a (non-empty)
    [delta] member.  With the relay active and the route known, such an event
    makes the handler send one [media] event to the caller, and nothing else;
    its payload is the [audio] member when the event has a non-empty one and
    the [delta] member otherwise: the [audio] member under the first shape,
    the [delta] member under the second unless the event has an [audio]
    member too.  An event of any other [type] produces no call at all. *)
Theorem audio_delta_shapes now msg st :
  registered st = Active ->
  truthy (streamSid st) = true ->
  let out := (step now (AiMessage (Some msg)) st).2 in
  (is_AudioDelta (Some msg) = true <->
     (get msg "type" = str "response.audio.delta" /\ truthy (get msg "audio") = true)
     \/ (get msg "type" = str "response.output_audio.delta"
         /\ truthy (get msg "delta") = true))
  /\ (is_AudioDelta (Some msg) = true ->
      out = [TwilioSend (media (streamSid st)
                           (if truthy (get msg "audio") then get msg "audio"
                            else get msg "delta"))])
  /\ (get msg "type" = str "response.audio.delta" ->
      truthy (get msg "audio") = true ->
      out = [TwilioSend (media (streamSid st) (get msg "audio"))])
  /\ (get msg "type" = str "response.output_audio.delta" ->
      truthy (get msg "delta") = true ->
      truthy (get msg "audio") = false ->
      out = [TwilioSend (media (streamSid st) (get msg "delta"))])
  /\ (get msg "type" <> str "response.audio.delta" ->
      get msg "type" <> str "response.output_audio.delta" ->
      out = []).
Proof.
  intros H Hs out. unfold out. rewrite (step_ai_audio now msg st H Hs).
  split; [apply is_AudioDelta_shapes|].
  split; [by intros ->|].
  split; [|split].
  - intros Ht Ha.
    assert (is_AudioDelta (Some msg) = true) as -> by (apply is_AudioDelta_shapes; auto).
    unfold audioPayload, js_or. by rewrite Ha.
  - intros Ht Hd Ha.
    assert (is_AudioDelta (Some msg) = true) as -> by (apply is_AudioDelta_shapes; auto).
    unfold audioPayload, js_or. by rewrite Ha.
  - intros H1 H2. destruct (is_AudioDelta (Some msg)) eqn:Ha; [|done].
    apply is_AudioDelta_shapes in Ha as [[? _]|[? _]]; congruence.
Qed.

(** ** The caller's events *)

Lemma step_stop now msg st :
  get msg "event" = str "stop" ->
  (step now (TwilioMessage (Some msg)) st).2 =
    Console Log "[Twilio] STOP" ::
    match aiWS st with
    | Some _ => [AiSend commit; AiSend closing; AiClose; TwilioClose]
    | None => [TwilioClose]
    end.
Proof.
  intros He.
  apply (wp_step now (TwilioMessage (Some msg)) (fun _ out =>
    out = Console Log "[Twilio] STOP" ::
          match aiWS st with
          | Some _ => [AiSend commit; AiSend closing; AiClose; TwilioClose]
          | None => [TwilioClose]
          end)).
  wp_handlers. wp_run; simpl; simplify_eq; rewrite ?He in *; simpl in *; try done.
  all: destruct (aiWS st); simpl in *; done.
Qed.

(** C5 (as amended).  On the caller's ['stop'] event, whichever of the calls
    throw (the environment [o] says which):
    when the AI socket exists ([aiWS] is set, [connectOpenAI] has resolved)
    the calls made on the sockets are, in this order, one
    [input_audio_buffer.commit] send, one closing [response.create] send, the
    close of the AI socket and the close of the caller socket; when it does
    not exist (the connect is pending or has failed) the only call is the
    close of the caller socket. *)
Theorem stop_teardown now msg st o :
  get msg "event" = str "stop" ->
  socket_calls (step now (TwilioMessage (Some msg)) (set_throws o st)).2 =
    match aiWS st with
    | Some _ => [AiSend commit; AiSend closing; AiClose; TwilioClose]
    | None => [TwilioClose]
    end.
Proof.
  intros He. rewrite (step_stop now msg (set_throws o st) He). simpl.
  by destruct (aiWS st).
Qed.

Lemma step_media now msg st :
  is_MediaFrame msg = true ->
  (aiReady st && is_set (aiWS st) = false ->
     step now (TwilioMessage (Some msg)) st = (st, []))
  /\ (aiReady st && is_set (aiWS st) = true ->
      socket_calls (step now (TwilioMessage (Some msg)) st).2
        = [AiSend (append (frame_payload msg))]).
Proof.
  intros Hm. split; intros Hr.
  - rewrite (surjective_pairing (step now (TwilioMessage (Some msg)) st)).
    apply (wp_step now (TwilioMessage (Some msg)) (fun st' out => (st', out) = (st, []))).
    wp_handlers. unfold is_MediaFrame in Hm.
    wp_run; simpl; simplify_eq; try congruence.
    all: match goal with
         | H : truthy (eq_lit _ "start") = true |- _ =>
             apply js_and_true in Hm as [Hm _];
             apply eq_lit_true in H; rewrite H in Hm; discriminate Hm
         end.
  - apply (wp_step now (TwilioMessage (Some msg)) (fun _ out =>
      socket_calls out = [AiSend (append (frame_payload msg))])).
    wp_handlers. unfold is_MediaFrame in Hm.
    wp_run; simpl; simplify_eq; try congruence; try done.
    all: match goal with
         | H : truthy (eq_lit _ "start") = true |- _ =>
             apply js_and_true in Hm as [Hm _];
             apply eq_lit_true in H; rewrite H in Hm; discriminate Hm
         end.
Qed.



(** ** The session: transcript and fields *)

Ltac effect_tests :=
  try audio_clash;
  unfold ai_effect, entry_of; lazy beta iota zeta;
  try match goal with
      | Ha : truthy (js_and (isAudioDelta ?msg) _) = true |- _ =>
          rewrite ?(audio_not_session msg "transcript.delta" _ Ha),
                  ?(audio_not_session msg "extracted.fields" _ Ha) by auto
      end;
  repeat match goal with
         | H : truthy _ = _ |- _ => rewrite H; clear H
         end;
  simpl; done.

Lemma step_heap now e st :
  heap (step now e st).1 = heap st
  \/ (exists raw, e = AiMessage raw /\ registered st = Active
      /\ heap (step now e st).1 = alter (ai_effect now raw) (session st) (heap st)).
Proof.
  apply (wp_step now e (fun st' _ =>
    heap st' = heap st
    \/ (exists raw, e = AiMessage raw /\ registered st = Active
        /\ heap st' = alter (ai_effect now raw) (session st) (heap st)))).
  wp_handlers. wp_run; simpl; simplify_eq; try (by left).
  all: right; eexists; split; [done|]; split; [done|].
  all: rewrite ?list_alter_alter_eq; apply list_alter_ext; [|done..].
  all: intros ? _; effect_tests.
Qed.

Lemma step_ai_heap now raw st :
  registered st = Active ->
  heap (step now (AiMessage raw) st).1 = alter (ai_effect now raw) (session st) (heap st).
Proof.
  intros H.
  apply (wp_step now (AiMessage raw) (fun st' _ =>
    heap st' = alter (ai_effect now raw) (session st) (heap st))).
  wp_handlers. wp_run; simpl; simplify_eq; try congruence; try audio_clash.
  all: rewrite ?list_alter_alter_eq.
  all: try (symmetry; apply list_alter_id; intros ?; effect_tests).
  all: apply list_alter_ext; [|done..].
  all: intros ? _; effect_tests.
Qed.

Lemma ai_effect_transcript now raw s :
  transcript (ai_effect now raw s)
    = transcript s ++ match entry_of now raw with Some e => [e] | None => [] end.
Proof.
  unfold ai_effect. destruct raw as [msg|]; [|by rewrite app_nil_r].
  destruct msg; try by rewrite app_nil_r.
  all: destruct (entry_of _ _); case_match; simpl; by rewrite ?app_nil_r.
Qed.

Lemma ai_effect_start now raw s : start (ai_effect now raw s) = start s.
Proof.
  unfold ai_effect. destruct raw as [msg|]; [|done].
  destruct msg; try done.
  all: destruct (entry_of _ _); by case_match.
Qed.

(** No step ever takes an entry away from a transcript or changes one. *)
Lemma step_transcript_prefix now e st r s :
  heap st !! r = Some s ->
  exists s', heap (step now e st).1 !! r = Some s'
             /\ transcript s `prefix_of` transcript s'.
Proof.
  intros Hs. destruct (step_heap now e st) as [->|(raw & _ & _ & ->)].
  - by exists s.
  - destruct (decide (r = session st)) as [->|Hne].
    + exists (ai_effect now raw s). rewrite list_lookup_alter_eq, Hs. split; [done|].
      rewrite ai_effect_transcript. by apply prefix_app_r.
    + exists s. by rewrite list_lookup_alter_ne.
Qed.

Lemma step_other_transcript now e st :
  (forall raw, e <> AiMessage raw) -> heap (step now e st).1 = heap st.
Proof.
  intros He. destruct (step_heap now e st) as [->|(raw & -> & _)]; [done|].
  by destruct (He raw).
Qed.

Lemma run_transcript evs st s :
  registered st = Active ->
  the_session st = Some s ->
  exists s', the_session (run evs st).1 = Some s'
             /\ transcript s' = transcript s ++ entries_of evs
             /\ start s' = start s.
Proof.
  revert st s. induction evs as [|[now e] evs IH]; intros st s H Hs.
  - exists s. by rewrite app_nil_r.
  - rewrite run_cons; simpl.
    assert (Hstep : exists s1, the_session (step now e st).1 = Some s1
              /\ transcript s1 = transcript s
                   ++ match e with
                      | AiMessage raw =>
                          match entry_of now raw with Some x => [x] | None => [] end
                      | _ => []
                      end
              /\ start s1 = start s).
    { unfold the_session in *. destruct (step_frame now e st) as (_ & _ & -> & _).
      destruct e as [raw| |opens|raw| |ok];
        try (rewrite step_other_transcript by done; exists s; by rewrite app_nil_r).
      rewrite step_ai_heap by done. rewrite list_lookup_alter_eq, Hs.
      exists (ai_effect now raw s).
      by rewrite ai_effect_transcript, ai_effect_start. }
    destruct Hstep as (s1 & Hs1 & Ht1 & Hst1).
    destruct (IH (step now e st).1 s1) as (s' & Hs' & Ht' & Hst');
      [by apply step_Active | done |].
    exists s'. split; [done|]. split; [|congruence].
    rewrite Ht', Ht1, <- app_assoc. f_equal.
    unfold entries_of. simpl. by destruct e as [| | |raw| |]; try done;
      destruct (entry_of now raw).
Qed.

(** C9.  The transcript only grows at its end.  (1) Whatever the event (an
    event of the AI socket or any other) and whatever the state, every session
    of the heap has afterwards a transcript that begins with the one it had:
    no entry is removed or changed.  (2) While the handlers of the AI socket
    are registered, after any run the transcript of the call's session is the
    one it had followed by one entry for each [transcript.delta] event with a
    text, in the order of the events; the entry holds the [from] of the event,
    ['agent'] when it has none, its [text], and the time it was handled at. *)
Theorem transcript_append_only :
  (forall now e st r s,
      heap st !! r = Some s ->
      exists s', heap (step now e st).1 !! r = Some s'
                 /\ transcript s `prefix_of` transcript s'
                 /\ (length (transcript s) <= length (transcript s'))%nat)
  /\ (forall evs st,
        reachable st -> registered st = Active ->
        exists s s', the_session st = Some s
                     /\ the_session (run evs st).1 = Some s'
                     /\ transcript s' = transcript s ++ entries_of evs)
  /\ (forall now msg,
        get msg "type" = str "transcript.delta" ->
        truthy (get msg "text") = true ->
        entry_of now (Some msg)
          = Some {| from := if truthy (get msg "from") then get msg "from"
                            else str "agent";
                    text := get msg "text"; t := now |}).
Proof.
  repeat split.
  - intros now e st r s Hs.
    destruct (step_transcript_prefix now e st r s Hs) as (s' & ? & Hp).
    exists s'. repeat split; try done. by apply prefix_length.
  - intros evs st Hr H.
    destruct (well_formed_session st (reachable_well_formed st Hr)) as [s Hs].
    destruct (run_transcript evs st s H Hs) as (s' & ? & ? & _). by exists s, s'.
  - intros now msg Ht Hx. unfold entry_of.
    destruct msg; try done. unfold js_and. simpl in *. rewrite Ht. simpl.
    by rewrite Hx.
Qed.










(** ** The session after the call *)

Lemma finalizeAndNotify_state now id st : (finalizeAndNotify now id st).1.2 = st.
Proof.
  unfold finalizeAndNotify, mbind, M_bind, read; simpl.
  destruct (lookup_session id st); destruct N8N_SUMMARY_WEBHOOK; try done.
  by destruct (truthy webhook).
Qed.

Lemma connection_again id now m h o r :
  id <> "" -> m !! id = Some r ->
  session (connection (Some id) now m h o) = r
  /\ heap (connection (Some id) now m h o) = h
  /\ sessions (connection (Some id) now m h o) !! id = Some r.
Proof.
  intros Hid Hr. unfold connection.
  assert (String.eqb id "" = false) as -> by by apply String.eqb_neq.
  rewrite Hr. simpl. by rewrite lookup_insert_eq.
Qed.

(** C7 (as amended).  [finalizeAndNotify] changes no state, and the handler
    of the caller's ['close'] event that calls it leaves [sessions] and the
    heap as they were: the session stays stored.  A later connection with the
    same [callSid] looks the same session object up, with the transcript and
    the fields it had when the call ended. *)
Theorem finalize_keeps_session now st :
  (forall id, (finalizeAndNotify now id st).1.2 = st)
  /\ sessions (step now TwilioClosed st).1 = sessions st
  /\ heap (step now TwilioClosed st).1 = heap st
  /\ (reachable st ->
      forall now' o,
        let st' := (step now TwilioClosed st).1 in
        let c := connection (Some (callSid st)) now' (sessions st') (heap st') o in
        session c = session st
        /\ heap c = heap st
        /\ the_session c = the_session st).
Proof.
  split; [intros; apply finalizeAndNotify_state|].
  destruct (step_frame now TwilioClosed st) as (Hm & _).
  assert (Hh : heap (step now TwilioClosed st).1 = heap st)
    by by apply step_other_transcript.
  split; [done|]. split; [done|].
  intros Hr now' o st' c. unfold c, st'. rewrite Hm, Hh.
  apply reachable_well_formed in Hr as (_ & Hid & Hs & _).
  destruct (connection_again (callSid st) now' (sessions st) (heap st) o
              (session st) Hid Hs) as (Hc1 & Hc2 & _).
  unfold the_session. by rewrite Hc1, Hc2.
Qed.

(** * More of the relay *)

(** ** Input that is not an event of the protocol *)

(** X1.  A caller message that does not parse, or is [null], is reported on
    the console and changes nothing; a message that parses to anything but a
    ['start'] event, a ['media'] event with a payload or a ['stop'] event (a
    number, an array, an object with another [event], a ['media'] event whose
    payload is missing or empty) is ignored without a trace.  No socket is
    touched either way. *)
Theorem caller_message_skipped now raw st :
  (raw = None \/ raw = Some JNull ->
     step now (TwilioMessage raw) st = (st, [Console Error "WS parse error:"]))
  /\ (forall msg,
        raw = Some msg -> msg <> JNull ->
        get msg "event" <> str "start" ->
        get msg "event" <> str "stop" ->
        is_MediaFrame msg = false ->
        step now (TwilioMessage raw) st = (st, [])).
Proof.
  split.
  - intros H. rewrite (surjective_pairing (step now (TwilioMessage raw) st)).
    apply (wp_step now (TwilioMessage raw) (fun st' out =>
      (st', out) = (st, [Console Error "WS parse error:"]))).
    wp_handlers. wp_run; simpl; simplify_eq; try done; by destruct H.
  - intros msg -> Hn H1 H2 Hm.
    rewrite (surjective_pairing (step now (TwilioMessage (Some msg)) st)).
    apply (wp_step now (TwilioMessage (Some msg)) (fun st' out => (st', out) = (st, []))).
    wp_handlers. unfold is_MediaFrame in Hm.
    wp_run; simpl; simplify_eq; try done; try congruence.
    all: match goal with
         | H : truthy (eq_lit _ _) = true |- _ => apply eq_lit_true in H; congruence
         end.
Qed.

(** X2.  While the handlers of the AI socket are registered, an AI message
    that does not parse, is [null], or is none of the three events the relay
    knows (an audio delta, a [transcript.delta] with a text, an
    [extracted.fields] with fields) is swallowed: no call, not even on the
    console, and no change of state. *)
Theorem ai_message_swallowed now raw st :
  registered st = Active ->
  is_AudioDelta raw = false ->
  entry_of now raw = None ->
  (forall msg, raw = Some msg ->
     truthy (js_and (eq_lit (get msg "type") "extracted.fields") (get msg "fields")) = false) ->
  step now (AiMessage raw) st = (st, []).
Proof.
  intros H Ha He Hf.
  rewrite (surjective_pairing (step now (AiMessage raw) st)).
  apply (wp_step now (AiMessage raw) (fun st' out => (st', out) = (st, []))).
  wp_handlers. wp_run; simpl in *; simplify_eq; try done; try congruence.
  all: try (rewrite Hf in *; done).
  all: unfold entry_of in He; simpl in He;
       repeat match goal with
              | H : truthy _ = true |- _ => rewrite H in He
              end; try done.
  all: specialize (Hf _ eq_refl); simpl in Hf; congruence.
Qed.

(** ** The route *)

Lemma js_or_or_null a b :
  js_or (js_or a b) null
    = if truthy a then a else if truthy b then b else null.
Proof.
  unfold js_or. destruct (truthy a) eqn:Ha; rewrite ?Ha; [done|].
  by destruct (truthy b) eqn:Hb; rewrite ?Hb.
Qed.

Lemma step_streamSid now e st :
  streamSid (step now e st).1 =
    match e with
    | TwilioMessage (Some msg) =>
        if is_start (now, e) then route_of msg else streamSid st
    | _ => streamSid st
    end.
Proof.
  apply (wp_step now e (fun st' _ =>
    streamSid st' = match e with
                    | TwilioMessage (Some msg) =>
                        if is_start (now, e) then route_of msg else streamSid st
                    | _ => streamSid st
                    end)).
  wp_handlers. unfold is_start, route_of.
  wp_run; simpl in *; simplify_eq; rewrite ?js_or_or_null; try done.
  all: repeat match goal with
              | H : truthy (eq_lit _ _) = _ |- _ => rewrite H; clear H
              end; done.
Qed.

Lemma run_streamSid evs st :
  Forall (fun e => is_start e = false) evs ->
  streamSid (run evs st).1 = streamSid st.
Proof.
  intros H. revert st. induction H as [|[now e] evs He _ IH]; intros st; [done|].
  rewrite run_cons; simpl. rewrite IH, step_streamSid.
  destruct e as [[msg|]| | | | |]; try done. by rewrite He.
Qed.

(** X3.  Only a caller ['start'] event changes the route: every other event,
    of either socket, leaves [streamSid] as it is, along any run.  A ['start']
    event replaces it, whatever it was, by [start.streamSid] when that is
    set, else by the top-level [streamSid] of the event, else by [null]: a
    second ['start'] without a stream id unsets the route again. *)
Theorem route_changes_only_on_start now msg st evs :
  get msg "event" = str "start" ->
  Forall (fun e => is_start e = false) evs ->
  streamSid (run ((now, TwilioMessage (Some msg)) :: evs) st).1 = route_of msg.
Proof.
  intros He Hevs. rewrite run_cons; simpl. rewrite (run_streamSid _ _ Hevs).
  rewrite step_streamSid. unfold is_start; simpl. by rewrite He.
Qed.

(** ** Calls that never get a summary *)

(** X4.  The handler of the caller's ['close'] event is registered only once
    [connectOpenAI] has resolved.  A caller that hangs up before (its
    ['close'] events all come before the promise settles) gets no
    [finalizeAndNotify] and no summary request, whether the connect then
    succeeds or fails and whatever else happens in the call. *)
Theorem close_before_connect_is_lost query now m h o pre t opens post :
  Forall (fun e => is_OpenAISettled e = false) pre ->
  Forall (fun e => is_TwilioClosed e = false) post ->
  Forall (fun c => is_Finalize c = false /\ is_Fetch c = false)
    (run (pre ++ (t, OpenAISettled opens) :: post) (connection query now m h o)).2.
Proof.
  intros Hpre Hpost.
  apply (Forall_impl (fun c => notifies c = false));
    [|intros c Hn; by apply orb_false_iff in Hn].
  rewrite run_app, run_cons; simpl. apply Forall_app; split.
  - apply run_quiet. right. split; [apply connection_init | done].
  - apply Forall_app; split; [apply step_quiet; by right|].
    generalize (step t (OpenAISettled opens)
                  (run pre (connection query now m h o)).1).1.
    intros st. revert st.
    induction Hpost as [|[t' e] post He _ IH]; intros st; [by apply Forall_nil|].
    rewrite run_cons; simpl. apply Forall_app; split; [|apply IH].
    apply step_quiet. by right.
Qed.

(** X5.  When the greeting cannot be sent (the first send on the fresh AI
    socket throws) the call ends like a failed connect: the caller socket is
    closed and the relay registers nothing more, so no continuation of the
    call makes a summary request.  [aiWS] and [aiReady] stay set, though, so a
    media frame that still arrives is still written to the AI socket. *)
Theorem greeting_failure_ends_call now o st :
  registered st = Connecting ->
  throws st = true :: o ->
  let st1 := (step now (OpenAISettled true) st).1 in
  socket_calls (step now (OpenAISettled true) st).2
    = [AiSend (session_update SYSTEM_PROMPT); AiSend greeting; TwilioClose]
  /\ registered st1 = Failed
  /\ aiReady st1 = true
  /\ (forall evs, Forall (fun c => is_Finalize c = false /\ is_Fetch c = false)
                    (run evs st1).2)
  /\ (forall t msg, is_MediaFrame msg = true ->
        socket_calls (step t (TwilioMessage (Some msg)) st1).2
          = [AiSend (append (frame_payload msg))]).
Proof.
  intros H Ho st1.
  assert (Hstep : socket_calls (step now (OpenAISettled true) st).2
                    = [AiSend (session_update SYSTEM_PROMPT); AiSend greeting; TwilioClose]
                  /\ registered st1 = Failed /\ aiReady st1 = true
                  /\ aiWS st1 = Some Socket).
  { unfold st1, step, dispatch, connected, connectOpenAI, try_catch, try_, perform,
      emit, update, read, throw, mbind, M_bind, mret, M_ret.
    rewrite H. simpl. rewrite Ho. simpl. by destruct o as [|[] o']. }
  destruct Hstep as (Hc & Hf & Hr & Hw). repeat split; try done.
  - intros evs.
    apply (Forall_impl (fun c => notifies c = false));
      [|intros c Hn; by apply orb_false_iff in Hn].
    apply run_quiet. by left.
  - intros t msg Hm. apply (step_media t msg st1 Hm). by rewrite Hr, Hw.
Qed.

(** ** What a step leaves alone *)

Lemma step_heap_other now e st r :
  r <> session st -> heap (step now e st).1 !! r = heap st !! r.
Proof.
  intros Hr. destruct (step_heap now e st) as [->|(raw & _ & _ & ->)]; [done|].
  by rewrite list_lookup_alter_ne.
Qed.

Lemma run_frame evs st :
  sessions (run evs st).1 = sessions st
  /\ callSid (run evs st).1 = callSid st
  /\ session (run evs st).1 = session st
  /\ length (heap (run evs st).1) = length (heap st).
Proof.
  revert st. induction evs as [|[now e] evs IH]; intros st; [done|].
  rewrite run_cons; simpl.
  destruct (IH (step now e st).1) as (-> & -> & -> & ->).
  apply step_frame.
Qed.

(** X6.  The handlers of a connection keep to their own call: along any run
    the [sessions] map, the [callSid] and the session the closure holds stay
    the same, no session object is created or dropped, and every session
    object other than the call's own is left exactly as it was. *)
Theorem run_keeps_to_its_call evs st :
  sessions (run evs st).1 = sessions st
  /\ callSid (run evs st).1 = callSid st
  /\ session (run evs st).1 = session st
  /\ length (heap (run evs st).1) = length (heap st)
  /\ forall r, r <> session st -> heap (run evs st).1 !! r = heap st !! r.
Proof.
  revert st. induction evs as [|[now e] evs IH]; intros st; [done|].
  rewrite run_cons; simpl.
  destruct (IH (step now e st).1) as (-> & -> & -> & -> & Hh).
  destruct (step_frame now e st) as (-> & -> & Hs & ->).
  rewrite Hs in *. repeat split; try done.
  intros r Hr. rewrite Hh by done. by apply step_heap_other.
Qed.

Lemma ai_effect_cases now raw s :
  start (ai_effect now raw s) = start s
  /\ (is_AudioDelta raw = true -> ai_effect now raw s = s)
  /\ (transcript (ai_effect now raw s) = transcript s
      \/ fields (ai_effect now raw s) = fields s).
Proof.
  split; [apply ai_effect_start|].
  unfold ai_effect, entry_of, is_AudioDelta.
  destruct raw as [msg|]; [|by auto].
  destruct msg; try (by auto).
  all: split.
  all: try (intros Ha;
            rewrite !(audio_not_session _ _ _ Ha) by auto; done).
  all: destruct (truthy (js_and (eq_lit (get _ "type") "transcript.delta") _)) eqn:Ht;
       destruct (truthy (js_and (eq_lit (get _ "type") "extracted.fields") _)) eqn:Hf;
       simpl; auto.
  all: apply js_and_true in Ht as [Ht _]; apply js_and_true in Hf as [Hf _].
  all: apply eq_lit_true in Ht; apply eq_lit_true in Hf.
  all: rewrite Ht in Hf; discriminate Hf.
Qed.

(** X7.  One AI event does one thing to the session: an audio delta leaves
    it untouched, and no event changes both the transcript and the fields;
    the start time is never changed.  Events of the caller socket, the
    ['close'] events and the settling of the connect leave the session as it
    was. *)
Theorem session_updates_are_separate now e st s :
  the_session st = Some s ->
  exists s',
    the_session (step now e st).1 = Some s'
    /\ start s' = start s
    /\ (transcript s' = transcript s \/ fields s' = fields s)
    /\ ((forall raw, e = AiMessage raw -> is_AudioDelta raw = true) -> s' = s).
Proof.
  intros Hs. unfold the_session in *.
  destruct (step_frame now e st) as (_ & _ & -> & _).
  destruct (step_heap now e st) as [->|(raw & -> & _ & ->)].
  - exists s. by auto.
  - rewrite list_lookup_alter_eq, Hs. simpl. exists (ai_effect now raw s).
    destruct (ai_effect_cases now raw s) as (H1 & H2 & H3).
    repeat split; try done. intros Ha. apply H2. by apply Ha.
Qed.

(** ** Audio goes through in order *)



Lemma not_frame_start msg :
  truthy (eq_lit (get msg "event") "start") = true -> is_MediaFrame msg = false.
Proof.
  intros H. apply eq_lit_true in H. unfold is_MediaFrame, js_and. by rewrite H.
Qed.










Lemma played_app out1 out2 : played (out1 ++ out2) = played out1 ++ played out2.
Proof. apply omap_app. Qed.

Lemma played_media sid p : played [TwilioSend (media sid p)] = [p].
Proof. by destruct sid, p. Qed.



(** ** What the summary holds *)

Lemma step_close_summary now st s url :
  registered st = Active ->
  N8N_SUMMARY_WEBHOOK = Some url -> url <> "" ->
  lookup_session (callSid st) st = Some s ->
  summaries (step now TwilioClosed st).2
    = [(url, {| sum_callSid := callSid st; startedAt := start s; endedAt := now;
                sum_transcript := transcript s; sum_fields := fields s |})].
Proof.
  intros H Hurl Hne Hs.
  assert (Hw : truthy webhook = true).
  { unfold webhook. rewrite Hurl. simpl. apply negb_true_iff.
    by apply String.eqb_neq. }
  apply (wp_step now TwilioClosed (fun _ out =>
    summaries out
      = [(url, {| sum_callSid := callSid st; startedAt := start s; endedAt := now;
                  sum_transcript := transcript s; sum_fields := fields s |})])).
  wp_handlers. wp_run; simpl; simplify_eq; try congruence; done.
Qed.

(** X10.  The summary request made when the caller socket closes carries the
    call as it stands at that moment: the [callSid], the start time of the
    session, the time of the close as [endedAt], and the session's transcript
    and fields, the transcript being the one the session had followed by the
    entries of every [transcript.delta] received since, in order.  Exactly one
    request is made, to the configured address. *)
Theorem summary_carries_the_call evs now st s url :
  reachable st -> registered st = Active ->
  N8N_SUMMARY_WEBHOOK = Some url -> url <> "" ->
  the_session st = Some s ->
  exists s',
    the_session (run evs st).1 = Some s'
    /\ transcript s' = transcript s ++ entries_of evs
    /\ summaries (step now TwilioClosed (run evs st).1).2
       = [(url, {| sum_callSid := callSid st; startedAt := start s; endedAt := now;
                   sum_transcript := transcript s'; sum_fields := fields s' |})].
Proof.
  intros Hr H Hurl Hne Hs.
  destruct (run_transcript evs st s H Hs) as (s' & Hs' & Ht & Hst).
  exists s'. split; [done|]. split; [done|].
  assert (Hwf : well_formed (run evs st).1)
    by (apply reachable_well_formed; by apply reachable_run).
  destruct Hwf as (_ & _ & Hid & _).
  destruct (run_frame evs st) as (_ & Hc & _).
  rewrite <- Hc, <- Hst.
  apply step_close_summary; try done; [by apply run_Active|].
  unfold lookup_session. rewrite Hid. done.
Qed.

Lemma entries_of_times evs :
  StronglySorted Z.le (fst <$> evs) ->
  StronglySorted Z.le (t <$> entries_of evs)
  /\ Forall (fun x => x ∈ fst <$> evs) (t <$> entries_of evs).
Proof.
  induction evs as [|[now e] evs IH]; intros Hs; [by split; constructor|].
  simpl in Hs. apply StronglySorted_cons in Hs as [Hle Hs].
  destruct (IH Hs) as [IH1 IH2].
  assert (Hin : Forall (fun x => x ∈ fst <$> (now, e) :: evs) (t <$> entries_of evs)).
  { eapply Forall_impl; [exact IH2|]. intros x Hx. simpl. by right. }
  unfold entries_of in *. simpl.
  destruct e as [| | |raw| |]; try done.
  destruct (entry_of now raw) as [x|] eqn:Hx; [|done].
  assert (t x = now) as Hxt.
  { unfold entry_of in Hx. destruct raw as [[]|]; try done.
    all: by destruct (truthy _); simplify_eq. }
  simpl. rewrite Hxt. split.
  - apply StronglySorted_cons. split; [|done].
    rewrite Forall_forall in *. intros y Hy. apply Hle. by apply IH2.
  - apply Forall_cons. split; [by left | done].
Qed.

(** X11.  The entries of a transcript are stamped with the time their event
    was handled at, so they stay in chronological order: if the times of the
    entries a session holds followed by the times of the events of a run
    never go back, the stamps of its transcript after the run never go back
    either. *)
Theorem transcript_in_chronological_order evs st s :
  reachable st -> registered st = Active ->
  the_session st = Some s ->
  StronglySorted Z.le ((t <$> transcript s) ++ (fst <$> evs)) ->
  exists s', the_session (run evs st).1 = Some s'
             /\ StronglySorted Z.le (t <$> transcript s').
Proof.
  intros Hr H Hs Hsorted.
  destruct (run_transcript evs st s H Hs) as (s' & Hs' & Ht & _).
  exists s'. split; [done|]. rewrite Ht, fmap_app.
  apply StronglySorted_app in Hsorted as (Hle & H1 & H2).
  destruct (entries_of_times evs H2) as [H3 H4].
  apply StronglySorted_app_2; try done.
  intros x1 x2 Hx1 Hx2. apply Hle; [done|].
  rewrite Forall_forall in H4. by apply H4.
Qed.

(** ** The start of a connection *)

(** X12.  The connection handler looks the session up before it creates one:
    a session already stored under the [callSid] is taken as it is (its
    transcript, fields and start time are not reset), a missing one is created
    empty with the time of the connection.  Either way the object stored under
    the [callSid] is the very object the handlers of the connection work on,
    every other entry of the store still names the session it named, and no
    session object is changed. *)
Theorem connection_looks_up_or_creates id now m h o :
  id <> "" -> store_ok m h ->
  let c := connection (Some id) now m h o in
  callSid c = id
  /\ lookup_session id c = the_session c
  /\ the_session c = match m !! id with
                     | Some r => h !! r
                     | None => Some (newSession now)
                     end
  /\ (forall id', id' <> id -> lookup_session id' c = (r ← m !! id'; h !! r))
  /\ (forall r s, h !! r = Some s -> heap c !! r = Some s).
Proof.
  intros Hid Hok c. unfold c, connection, lookup_session, the_session.
  assert (String.eqb id "" = false) as -> by by apply String.eqb_neq.
  destruct (m !! id) as [r|] eqn:Hr; simpl.
  - rewrite lookup_insert_eq. simpl. repeat split; try done.
    intros id' Hne. by rewrite lookup_insert_ne.
  - rewrite lookup_insert_eq. simpl.
    rewrite lookup_app_r, Nat.sub_diag by done. simpl. repeat split; try done.
    + intros id' Hne. rewrite lookup_insert_ne by done.
      destruct (m !! id') as [r'|] eqn:Hr'; [|done]. simpl.
      apply lookup_app_l. by apply (Hok id' r').
    + intros r s Hs. by apply lookup_app_l_Some.
Qed.

(** X13.  A connection that comes without a [callSid] (none in the query
    string, or an empty one) names its call after the clock, [call_<now>]: two
    such connections get the same name exactly when they start in the same
    millisecond, and then the second one finds the session of the first and
    both calls write to the same transcript. *)
Theorem anonymous_calls_share_by_time now1 now2 m h o1 o2 :
  let c1 := connection None now1 m h o1 in
  let c2 := connection None now2 (sessions c1) (heap c1) o2 in
  connection (Some "") now1 m h o1 = c1
  /\ callSid c1 = "call_" +:+ pretty now1
  /\ (callSid c2 = callSid c1 <-> now2 = now1)
  /\ (now2 = now1 -> session c2 = session c1 /\ heap c2 = heap c1).
Proof.
  intros c1 c2.
  assert (H1 : callSid c1 = "call_" +:+ pretty now1)
    by (unfold c1, connection; by case_match).
  assert (H2 : callSid c2 = "call_" +:+ pretty now2)
    by (unfold c2, connection; by case_match).
  assert (Hs1 : sessions c1 !! ("call_" +:+ pretty now1) = Some (session c1)).
  { unfold c1, connection. case_match; simpl; by rewrite lookup_insert_eq. }
  split; [done|]. split; [done|]. split.
  - rewrite H1, H2. split; [|by intros ->].
    intros Heq. simpl in Heq. simplify_eq. by apply (inj pretty).
  - intros ->. unfold c2, connection. rewrite Hs1. done.
Qed.

(** ** The TwiML endpoint *)

Lemma voice_callSid host now_id now_start m h id :
  id <> "" ->
  voice (Some (JStr id)) host now_id now_start m h
    = (<[id := length h]> m, h ++ [newSession now_start],
       [Console Log "[TwiML] callSid"],
       Some {| content_type := "text/xml"; body := twiml (wsUrl host id) |}).
Proof.
  intros Hid. unfold voice. simpl.
  by assert (String.eqb id "" = false) as -> by by apply String.eqb_neq.
Qed.





Lemma query_value_char c r :
  query_value ((if unreserved c then String c EmptyString else escape c) +:+ r)
    = String c (query_value r).
Proof.
  destruct c as [[] [] [] [] [] [] [] []]; reflexivity.
Qed.

(** X15.  The [callSid] survives the trip through the Stream URL: what
    [/voice] writes after [callSid=] is [encodeURIComponent(callSid)], and
    decoding that as a query value (every [+] a space, every [%XX] a byte)
    gives the [callSid] back, whatever bytes it holds; so the connection
    looks for the session under the name it was stored under. *)
Theorem callSid_survives_the_url id host now_id now_start m h :
  id <> "" ->
  body <$> (voice (str id) host now_id now_start m h).2
    = Some (twiml ("wss://" +:+ default "undefined" host +:+ "/twilio-media?callSid="
                   +:+ encodeURIComponent id))
  /\ query_value (encodeURIComponent id) = id.
Proof.
  intros Hid. unfold str.
  rewrite (voice_callSid host now_id now_start m h id Hid).
  split; [done|]. clear Hid.
  induction id as [|c r IH]; [done|].
  simpl encodeURIComponent. by rewrite query_value_char, IH.
Qed.

Lemma string_chars_app s1 s2 :
  String.list_ascii_of_string (s1 +:+ s2)
    = String.list_ascii_of_string s1 ++ String.list_ascii_of_string s2.
Proof. induction s1 as [|c s1 IH]; [done|]. simpl. by rewrite IH. Qed.

Lemma encoded_char_safe c :
  Forall (fun x => breaks_xml x = false)
    (String.list_ascii_of_string (if unreserved c then String c EmptyString else escape c)).
Proof.
  destruct c as [[] [] [] [] [] [] [] []]; vm_compute; repeat constructor.
Qed.

(** X16.  Nothing in a [CallSid] can break out of the TwiML: the text written
    for it into the [url] attribute holds no double quote, no [<], [>] or [&],
    no space and no line break, whatever the [CallSid] is. *)
Theorem callSid_cannot_break_twiml id :
  Forall (fun c => breaks_xml c = false)
    (String.list_ascii_of_string (encodeURIComponent id)).
Proof.
  induction id as [|c r IH]; [constructor|].
  simpl encodeURIComponent. rewrite string_chars_app.
  apply Forall_app. split; [apply encoded_char_safe | done].
Qed.

(** X17.  A second request to [/voice] for a call that is under way cuts the
    stored session loose from the live one: the handlers of the connection go
    on writing to the object they hold, but [finalizeAndNotify] reads the
    store, so the summary sent when the caller socket closes is that of the
    new, empty session: no transcript, no fields, and the time of the second
    request as [startedAt]. *)
Theorem voice_during_call_empties_summary host now_id now_start now st url :
  reachable st -> registered st = Active ->
  N8N_SUMMARY_WEBHOOK = Some url -> url <> "" ->
  let st' := voice_during (str (callSid st)) host now_id now_start st in
  the_session st' = the_session st
  /\ summaries (step now TwilioClosed st').2
     = [(url, {| sum_callSid := callSid st; startedAt := now_start; endedAt := now;
                 sum_transcript := []; sum_fields := ∅ |})].
Proof.
  intros Hr H Hurl Hne st'.
  destruct (reachable_well_formed st Hr) as (Hok & Hid & Hs & _).
  unfold st', voice_during.
  unfold str. rewrite (voice_callSid host now_id now_start _ _ (callSid st) Hid).
  split.
  - unfold the_session. simpl. apply lookup_app_l. by apply (Hok _ _ Hs).
  - apply (step_close_summary now
             (set_store (<[callSid st:=length (heap st)]> (sessions st))
                        (heap st ++ [newSession now_start]) st)
             (newSession now_start) url); try done.
    unfold lookup_session. simpl. rewrite lookup_insert_eq. simpl.
    by rewrite lookup_app_r, Nat.sub_diag.
Qed.


(** ** The relay with counters against the relay without *)

Lemma sim_lift {A} (m : M A) : sim m (lift m).
Proof. intros c. unfold erase, lift. by destruct (m (relay c)) as [[r st] out]. Qed.

Lemma sim_ret {A} (a : A) : sim (mret a) (mret a).
Proof. done. Qed.

Lemma sim_bind {A B} (m : M A) (ms : MS A) (f : A -> M B) (fs : A -> MS B) :
  sim m ms -> (forall a, sim (f a) (fs a)) -> sim (m ≫= f) (ms ≫= fs).
Proof.
  intros Hm Hf c. specialize (Hm c). unfold erase, mbind, M_bind, MS_bind in *.
  destruct (ms c) as [[[a|] c1] out1], (m (relay c)) as [[r st1] out1'];
    simpl in *; simplify_eq; [|done].
  specialize (Hf a c1). unfold erase in Hf.
  destruct (fs a c1) as [[r2 c2] out2], (f a (relay c1)) as [[r2' st2] out2'].
  simpl in *. by simplify_eq.
Qed.

Lemma sim_count_then {A} (m : M A) (ms : MS A) f :
  sim m ms -> sim m (count f ≫= fun _ => ms).
Proof.
  intros Hm c. specialize (Hm {| relay := relay c; stats := f (stats c) |}).
  unfold erase, mbind, MS_bind, count in *. simpl in *.
  by destruct (ms _) as [[r c2] out2].
Qed.

Lemma sim_then_count (m : M unit) (ms : MS unit) f :
  sim m ms -> sim m (ms ≫= fun _ => count f).
Proof.
  intros Hm c. specialize (Hm c). unfold erase, mbind, MS_bind, count in *.
  destruct (ms c) as [[[[]|] c1] out1]; simpl in *; [|done].
  by rewrite app_nil_r.
Qed.

Lemma sim_try_catch (m h : M unit) (ms hs : MS unit) :
  sim m ms -> sim h hs -> sim (try_catch m h) (tryS_catch ms hs).
Proof.
  intros Hm Hh c. specialize (Hm c). unfold erase, try_catch, tryS_catch in *.
  destruct (ms c) as [[[a|] c1] out1], (m (relay c)) as [[r st1] out1'];
    simpl in *; simplify_eq; [done|].
  specialize (Hh c1). unfold erase in Hh.
  destruct (hs c1) as [[r2 c2] out2], (h (relay c1)) as [[r2' st2] out2'].
  simpl in *. by simplify_eq.
Qed.

Lemma sim_when b (m : M unit) (ms : MS unit) :
  sim m ms -> sim (when b m) (whenS b ms).
Proof. by destruct b. Qed.

Ltac sim_rule :=
  lazymatch goal with
  | |- sim _ (lift _) => apply sim_lift
  | |- sim _ (mbind (fun _ => count _) _) => apply sim_then_count
  | |- sim _ (mbind _ (count _)) => apply sim_count_then
  | |- sim (mbind _ _) (mbind _ _) => apply sim_bind; [|intros ?]
  | |- sim (try_catch _ _) (tryS_catch _ _) => apply sim_try_catch
  | |- sim (try_ _) (tryS_ _) => apply sim_try_catch
  | |- sim (when _ _) (whenS _ _) => apply sim_when
  | |- sim (if ?b then _ else _) _ => destruct b
  | |- sim (mret _) (mret _) => apply sim_ret
  end.

Lemma sim_dispatch now e : sim (dispatch_with greeting_alloy now e) (dispatch_S now (Event e)).
Proof.
  unfold dispatch_with, dispatch_S. apply sim_bind; [apply sim_lift|]. intros p.
  destruct e, p; try apply sim_ret; try apply sim_lift;
    unfold on_twilio_message, on_twilio_message_S, connected_with, connected_S,
           on_ai_message, on_ai_message_S, on_ai_close, on_ai_close_S,
           on_twilio_close_S;
    repeat sim_rule.
Qed.

Lemma step_S_event now e c :
  relay (step_S now (Event e) c).1 = (step_with greeting_alloy now e (relay c)).1
  /\ (step_S now (Event e) c).2 = (step_with greeting_alloy now e (relay c)).2.
Proof.
  generalize (sim_dispatch now e c). unfold erase, step_S, step_with.
  destruct (dispatch_S now (Event e) c) as [[r c'] out].
  destruct (dispatch_with greeting_alloy now e (relay c)) as [[r' st'] out'].
  simpl. intros H. by simplify_eq.
Qed.

Lemma step_S_interval now c :
  (step_S now Interval c).1 = c /\ effects (step_S now Interval c).2 = [].
Proof. unfold step_S, dispatch_S, on_interval. by destruct (dump (stats c)). Qed.

Lemma run_S_cons now k ks c :
  run_S ((now, k) :: ks) c =
  ((run_S ks (step_S now k c).1).1,
   (step_S now k c).2 ++ (run_S ks (step_S now k c).1).2).
Proof.
  simpl. destruct (step_S now k c) as [c1 out1]; simpl.
  by destruct (run_S ks c1).
Qed.

Lemma run_with_cons g now e evs st :
  run_with g ((now, e) :: evs) st =
  ((run_with g evs (step_with g now e st).1).1,
   (step_with g now e st).2 ++ (run_with g evs (step_with g now e st).1).2).
Proof.
  simpl. destruct (step_with g now e st) as [st1 out1]; simpl.
  by destruct (run_with g evs st1).
Qed.

Lemma effects_app out1 out2 : effects (out1 ++ out2) = effects out1 ++ effects out2.
Proof. apply List.filter_app. Qed.

(** X18.  The counters and the statistics timer of [ai_voice_relay_server.js]
    are observers only: along any interleaving of events and timer ticks, the
    state of the relay, and every call it makes on the sockets and on the
    summary endpoint, are those of the relay without them (with the greeting
    of this file), run on the events alone. *)
Theorem counters_only_observe ks c :
  relay (run_S ks c).1 = (run_with greeting_alloy (events_of ks) (relay c)).1
  /\ effects (run_S ks c).2
     = effects (run_with greeting_alloy (events_of ks) (relay c)).2.
Proof.
  revert c. induction ks as [|[now [e|]] ks IH]; intros c; [done| |].
  - rewrite run_S_cons. change (events_of ((now, Event e) :: ks))
      with ((now, e) :: events_of ks).
    rewrite run_with_cons; cbn [fst snd].
    destruct (step_S_event now e c) as [H1 H2]. rewrite <- H1, <- H2.
    destruct (IH (step_S now (Event e) c).1) as [H3 H4].
    split; [done|]. by rewrite !effects_app, H4.
  - rewrite run_S_cons. change (events_of ((now, Interval) :: ks)) with (events_of ks).
    cbn [fst snd]. destruct (step_S_interval now c) as [H1 H2].
    rewrite H1, effects_app, H2. apply IH.
Qed.

(** ** The counters and the timer *)

Lemma wpS_ret {A} (a : A) Q c : Q (Normal a) c [] -> wpS (mret a) Q c.
Proof. done. Qed.

Lemma wpS_bind {A B} (m : MS A) (f : A -> MS B) Q c :
  wpS m (fun r c1 out1 =>
           match r with
           | Normal a => wpS (f a) (fun r2 c2 out2 => Q r2 c2 (out1 ++ out2)) c1
           | Thrown => Q Thrown c1 out1
           end) c ->
  wpS (m ≫= f) Q c.
Proof.
  unfold wpS, mbind, MS_bind. destruct (m c) as [[[a|] c1] out1]; simpl; [|done].
  by destruct (f a c1) as [[r2 c2] out2].
Qed.

Lemma wpS_try_catch (m h : MS unit) Q c :
  wpS m (fun r c1 out1 =>
           match r with
           | Normal a => Q (Normal a) c1 out1
           | Thrown => wpS h (fun r2 c2 out2 => Q r2 c2 (out1 ++ out2)) c1
           end) c ->
  wpS (tryS_catch m h) Q c.
Proof.
  unfold wpS, tryS_catch. destruct (m c) as [[[a|] c1] out1]; simpl; [done|].
  by destruct (h c1) as [[r2 c2] out2].
Qed.

Lemma wpS_try (m : MS unit) Q c :
  wpS m (fun r c1 out1 => Q (Normal tt) c1 out1) c -> wpS (tryS_ m) Q c.
Proof.
  intros H. apply wpS_try_catch. unfold wpS in *.
  destruct (m c) as [[[[]|] c1] out1]; simpl in *; [done|].
  by rewrite app_nil_r.
Qed.

Lemma wpS_count f Q c :
  Q (Normal tt) {| relay := relay c; stats := f (stats c) |} [] -> wpS (count f) Q c.
Proof. done. Qed.

Lemma wpS_lift {A} (m : M A) Q c :
  wp m (fun r st out => Q r {| relay := st; stats := stats c |} out) (relay c) ->
  wpS (lift m) Q c.
Proof. unfold wp, wpS, lift. by destruct (m (relay c)) as [[r st] out]. Qed.

Lemma wpS_interval Q c :
  (forall out, Forall (fun x => is_console x = true) out ->
               (dump (stats c) = false -> out = []) -> Q (Normal tt) c out) ->
  wpS on_interval Q c.
Proof.
  intros H. unfold wpS, on_interval. destruct (dump (stats c)); simpl; apply H; try done.
  by repeat constructor.
Qed.

Lemma wpS_step now k (Q : Conn -> list call -> Prop) c :
  wpS (dispatch_S now k) (fun _ c' out => Q c' out) c ->
  Q (step_S now k c).1 (step_S now k c).2.
Proof. unfold wpS, step_S. by destruct (dispatch_S now k c) as [[r c'] out]. Qed.

Ltac wpS_rule :=
  lazymatch goal with
  | |- wpS (_ ≫= _) _ _ => apply wpS_bind
  | |- wpS (tryS_catch _ _) _ _ => apply wpS_try_catch
  | |- wpS (tryS_ _) _ _ => apply wpS_try
  | |- wpS (mret _) _ _ => apply wpS_ret
  | |- wpS (count _) _ _ => apply wpS_count
  | |- wpS (lift _) _ _ => apply wpS_lift
  | |- wpS on_interval _ _ => apply wpS_interval; intros ? ? ?
  | |- wpS (whenS ?b _) _ _ => unfold whenS; destruct b eqn:?
  | |- wpS (if ?b then _ else _) _ _ => destruct b eqn:?
  | |- wpS (match ?x with _ => _ end) _ _ => destruct x eqn:?
  | |- wp (on_twilio_close _) _ _ => unfold on_twilio_close
  | |- wp (fetch_settled _) _ _ => unfold fetch_settled
  | |- wp (connectOpenAI_S _) _ _ => unfold connectOpenAI_S
  | _ => wp_rule
  end.

Ltac wpS_run := repeat (cbn beta iota; wpS_rule).

Ltac wpS_handlers :=
  unfold dispatch_S, on_twilio_message_S, on_ai_message_S, on_ai_close_S,
         on_twilio_close_S, connected_S.

Lemma stop_not_start msg :
  truthy (eq_lit (get msg "event") "stop") = true ->
  truthy (eq_lit (get msg "event") "start") = false
  /\ is_MediaFrame msg = false.
Proof.
  unfold is_MediaFrame, js_and, eq_lit.
  destruct (get msg "event") as [[]|]; simpl; try done.
  intros ->%String.eqb_eq. done.
Qed.

Lemma start_not_stop msg :
  truthy (eq_lit (get msg "event") "start") = true ->
  truthy (eq_lit (get msg "event") "stop") = false.
Proof.
  unfold eq_lit. destruct (get msg "event") as [[]|]; simpl; try done.
  intros ->%String.eqb_eq. done.
Qed.

Lemma frame_not_stop msg :
  truthy (js_and (eq_lit (get msg "event") "media") (get_opt (get msg "media") "payload"))
  = true ->
  truthy (eq_lit (get msg "event") "stop") = false.
Proof.
  unfold js_and, eq_lit. destruct (get msg "event") as [[]|]; simpl; try done.
  destruct (String.eqb s "media") eqn:E; [|done].
  apply String.eqb_eq in E as ->. done.
Qed.

Ltac event_tests :=
  repeat match goal with
         | H : truthy (eq_lit (get _ "event") "start") = true |- _ =>
             rewrite ?(start_not_stop _ H); clear H
         | H : truthy (js_and (eq_lit (get _ "event") "media") _) = true |- _ =>
             rewrite ?(frame_not_stop _ H); clear H
         | H : truthy _ = _ |- _ => rewrite ?H; clear H
         end.

Lemma step_S_dump now k c :
  dump (stats (step_S now k c).1)
  = dump (stats c) && negb (clears (registered (relay c)) (now, k)).
Proof.
  apply (wpS_step now k (fun c' _ =>
    dump (stats c') = dump (stats c) && negb (clears (registered (relay c)) (now, k)))).
  wpS_handlers. unfold clears, is_stop.
  wpS_run; cbn -[get truthy eq_lit js_and]; simplify_eq;
    cbn -[get truthy eq_lit js_and]; event_tests;
    rewrite ?andb_true_r, ?andb_false_r; try done.
Qed.

(** In this file the [try] block always ends in the [catch] block. *)
Lemma step_S_registered now k c :
  match registered (relay c) with
  | Active => registered (relay (step_S now k c).1) = Active
  | Failed => registered (relay (step_S now k c).1) = Failed
  | Connecting =>
      match k with
      | Event (OpenAISettled _) => registered (relay (step_S now k c).1) = Failed
      | _ => registered (relay (step_S now k c).1) = Connecting
      end
  end.
Proof.
  apply (wpS_step now k (fun c' _ =>
    match registered (relay c) with
    | Active => registered (relay c') = Active
    | Failed => registered (relay c') = Failed
    | Connecting =>
        match k with
        | Event (OpenAISettled _) => registered (relay c') = Failed
        | _ => registered (relay c') = Connecting
        end
    end)).
  wpS_handlers. wpS_run; simpl; simplify_eq; repeat case_match; simplify_eq; done.
Qed.

Lemma run_S_keeps_timer p ks c :
  p <> Active -> registered (relay c) = p ->
  (p = Connecting -> Forall (fun k => settles k = false) ks) ->
  Forall (fun k => is_stop k = false) ks ->
  dump (stats (run_S ks c).1) = dump (stats c)
  /\ registered (relay (run_S ks c).1) = p.
Proof.
  intros Hp. revert c. induction ks as [|[now k] ks IH]; intros c Hc Hs Hk; [done|].
  rewrite run_S_cons; cbn [fst snd].
  inversion_clear Hk as [|? ? Hk1 Hk2].
  assert (registered (relay (step_S now k c).1) = p) as Hc'.
  { generalize (step_S_registered now k c). rewrite Hc.
    destruct p; [|done|done].
    specialize (Hs eq_refl). inversion_clear Hs as [|? ? Hs1 Hs2].
    by destruct k as [[]|]. }
  destruct (IH (step_S now k c).1) as [H1 H2]; [done| |done|].
  { intros ->. specialize (Hs eq_refl). by inversion_clear Hs. }
  split; [|done]. rewrite H1, step_S_dump, Hc.
  assert (clears p (now, k) = false) as ->; [|by rewrite andb_true_r].
  unfold clears; simpl. destruct k as [[]|], p; done.
Qed.

Lemma run_S_app ks1 ks2 c :
  run_S (ks1 ++ ks2) c =
  ((run_S ks2 (run_S ks1 c).1).1, (run_S ks1 c).2 ++ (run_S ks2 (run_S ks1 c).1).2).
Proof.
  revert c. induction ks1 as [|[now k] ks1 IH]; intros c.
  - simpl. by destruct (run_S ks2 c).
  - rewrite <- app_comm_cons, !run_S_cons, IH; cbn [fst snd]. by rewrite app_assoc.
Qed.

(** X20.  When the connect to the AI service fails, the statistics timer of
    the connection is never cleared: the [catch] block closes the caller's
    socket and returns without [clearInterval], and the two [close] handlers
    that would clear it are not registered.  Unless the caller has sent or
    sends a ['stop'] event, the interval is still set after any further
    events, the close of the caller's socket included, and goes on writing
    its line at every tick. *)
Theorem timer_outlives_failed_connect query now m h o pre t post :
  Forall (fun k => is_stop k = false) (pre ++ post) ->
  Forall (fun k => settles k = false) pre ->
  let c := (run_S (pre ++ (t, Event (OpenAISettled false)) :: post)
              (connection_S query now m h o)).1 in
  dump (stats c) = true
  /\ forall tn, (step_S tn Interval c).2 = [Console Log (stat_line (stats c))].
Proof.
  intros [Hpre Hpost]%Forall_app Hs c.
  assert (dump (stats c) = true) as Hd.
  { unfold c. rewrite run_S_app; cbn [fst snd]. rewrite run_S_cons; cbn [fst snd].
    destruct (run_S_keeps_timer Connecting pre (connection_S query now m h o))
      as [H1 H2]; try done; [apply connection_init|].
    set (c1 := (run_S pre (connection_S query now m h o)).1) in *.
    assert (registered (relay (step_S t (Event (OpenAISettled false)) c1).1) = Failed)
      as Hf.
    { generalize (step_S_registered t (Event (OpenAISettled false)) c1). by rewrite H2. }
    destruct (run_S_keeps_timer Failed post (step_S t (Event (OpenAISettled false)) c1).1)
      as [H3 H4]; try done.
    rewrite H3, step_S_dump, H1, H2. done. }
  split; [done|]. intros tn. unfold step_S, dispatch_S, on_interval. by rewrite Hd.
Qed.

Lemma run_S_dump_false ks c :
  dump (stats c) = false ->
  dump (stats (run_S ks c).1) = false /\ stat_lines (run_S ks c).2 = [].
Proof.
  revert c. induction ks as [|[now k] ks IH]; intros c Hc; [done|].
  rewrite run_S_cons; cbn [fst snd].
  destruct (IH (step_S now k c).1) as [H1 H2]; [by rewrite step_S_dump, Hc|].
  split; [done|]. unfold stat_lines in *. rewrite List.filter_app, H2, app_nil_r.
  apply (wpS_step now k (fun _ out => List.filter is_stat out = [])).
  wpS_handlers. wpS_run; simpl; try done.
  by match goal with H : dump (stats c) = false -> _ |- _ => rewrite (H Hc) end.
Qed.

(** X21.  A ['stop'] of the caller, and the close of either socket once the
    connection is set up, clear the statistics timer for good: after such an
    event the interval is not set, nothing sets it again, and no statistics
    line is written by whatever follows. *)
Theorem stats_timer_cleared_for_good now k ks c :
  clears (registered (relay c)) (now, k) = true ->
  dump (stats (run_S ((now, k) :: ks) c).1) = false
  /\ stat_lines (run_S ks (step_S now k c).1).2 = [].
Proof.
  intros Hk. rewrite run_S_cons; cbn [fst snd].
  apply run_S_dump_false. by rewrite step_S_dump, Hk, andb_false_r.
Qed.

Lemma played_console out : Forall (fun x => is_console x = true) out -> played out = [].
Proof.
  induction 1 as [|x out Hx _ IH]; [done|]. by destruct x.
Qed.

Lemma step_S_counts now k c :
  (framesFromCaller (stats (step_S now k c).1)
   = framesFromCaller (stats c) + length (frames_of (events_of [(now, k)]))
   /\ framesToTwilio (stats (step_S now k c).1)
      <= framesToTwilio (stats c) + length (played (step_S now k c).2)
   /\ framesFromAI (stats c) + length (played (step_S now k c).2)
      <= framesFromAI (stats (step_S now k c).1)
   /\ framesFromAI (stats (step_S now k c).1)
      <= framesFromAI (stats c) + length (deltas_of (events_of [(now, k)])))%nat.
Proof.
  apply (wpS_step now k (fun c' out =>
    (framesFromCaller (stats c')
     = framesFromCaller (stats c) + length (frames_of (events_of [(now, k)]))
     /\ framesToTwilio (stats c') <= framesToTwilio (stats c) + length (played out)
     /\ framesFromAI (stats c) + length (played out) <= framesFromAI (stats c')
     /\ framesFromAI (stats c')
        <= framesFromAI (stats c) + length (deltas_of (events_of [(now, k)])))%nat)).
  wpS_handlers. unfold events_of, frames_of, deltas_of, is_AudioDelta.
  wpS_run; rewrite ?played_app, ?played_media, ?played_console by done;
    cbn -[get truthy eq_lit js_and isAudioDelta audioPayload get_opt is_MediaFrame];
    simplify_eq;
    try (rewrite not_frame_start by done);
    unfold is_MediaFrame;
    repeat match goal with
           | H : truthy _ = _ |- _ => rewrite ?H; clear H
           end;
    cbn -[get truthy eq_lit js_and isAudioDelta audioPayload get_opt];
    try lia.
  simpl. lia.
Qed.

Lemma deltas_of_app evs1 evs2 : deltas_of (evs1 ++ evs2) = deltas_of evs1 ++ deltas_of evs2.
Proof. apply omap_app. Qed.

Lemma frames_of_app evs1 evs2 : frames_of (evs1 ++ evs2) = frames_of evs1 ++ frames_of evs2.
Proof. apply omap_app. Qed.

Lemma events_of_cons now k ks :
  events_of ((now, k) :: ks) = events_of [(now, k)] ++ events_of ks.
Proof. unfold events_of. simpl. by destruct k. Qed.

(** X22.  What the three counters count.  [framesFromCaller] goes up by one
    for every media frame of the caller, whether it could be forwarded or not;
    every media event sent to the caller was counted in [framesFromAI] before
    it was sent, and is counted in [framesToTwilio] only if the send returned;
    [framesFromAI] counts no more than the audio deltas received.  So along
    any run: out <= media events sent <= ai <= audio deltas received. *)
Theorem counters_bound_the_traffic ks c :
  (framesFromCaller (stats (run_S ks c).1)
   = framesFromCaller (stats c) + length (frames_of (events_of ks))
   /\ framesToTwilio (stats (run_S ks c).1)
      <= framesToTwilio (stats c) + length (played (run_S ks c).2)
   /\ framesFromAI (stats c) + length (played (run_S ks c).2)
      <= framesFromAI (stats (run_S ks c).1)
   /\ framesFromAI (stats (run_S ks c).1)
      <= framesFromAI (stats c) + length (deltas_of (events_of ks)))%nat.
Proof.
  revert c. induction ks as [|[now k] ks IH]; intros c.
  - simpl. lia.
  - rewrite run_S_cons, events_of_cons, frames_of_app, deltas_of_app; cbn [fst snd].
    rewrite played_app, !length_app.
    destruct (step_S_counts now k c) as (H1 & H2 & H3 & H4).
    destruct (IH (step_S now k c).1) as (H5 & H6 & H7 & H8). lia.
Qed.

(** ** The relay as the file has it: no connection is ever set up *)

Lemma console_is_quiet x :
  is_console x = true ->
  is_ai_call x = false /\ is_TwilioSend x = false /\ notifies x = false.
Proof. by destruct x. Qed.

Ltac quiet_calls :=
  repeat first [apply Forall_nil_2 | apply Forall_cons_2; [done|]
               | apply Forall_app_2 ].

Lemma step_S_unconnected now k c :
  unconnected (relay c) ->
  unconnected (relay (step_S now k c).1)
  /\ Forall (fun x => is_ai_call x = false /\ is_TwilioSend x = false
                      /\ notifies x = false) (step_S now k c).2
  /\ framesFromAI (stats (step_S now k c).1) = framesFromAI (stats c)
  /\ framesToTwilio (stats (step_S now k c).1) = framesToTwilio (stats c).
Proof.
  intros (Hp & Hw & Hr).
  apply (wpS_step now k (fun c' out =>
    unconnected (relay c')
    /\ Forall (fun x => is_ai_call x = false /\ is_TwilioSend x = false
                        /\ notifies x = false) out
    /\ framesFromAI (stats c') = framesFromAI (stats c)
    /\ framesToTwilio (stats c') = framesToTwilio (stats c))).
  wpS_handlers. unfold unconnected.
  wpS_run; simpl in *; simplify_eq; try done.
  all: try match goal with
           | H : aiReady _ && _ = true |- _ => rewrite Hr in H; discriminate H
           | H : is_set (aiWS _) = true |- _ => rewrite Hw in H; discriminate H
           end.
  all: try (repeat split; try done; try congruence; quiet_calls; done).
  repeat split; try done.
  eapply Forall_impl; [eassumption|]. intros x. apply console_is_quiet.
Qed.

Lemma step_S_settle now opens c :
  registered (relay c) = Connecting ->
  socket_calls (step_S now (Event (OpenAISettled opens)) c).2 = [TwilioClose]
  /\ registered (relay (step_S now (Event (OpenAISettled opens)) c).1) = Failed.
Proof.
  intros Hc.
  apply (wpS_step now (Event (OpenAISettled opens)) (fun c' out =>
    socket_calls out = [TwilioClose] /\ registered (relay c') = Failed)).
  wpS_handlers. wpS_run; simpl; simplify_eq; done.
Qed.

Lemma connection_unconnected query now m h o :
  unconnected (relay (connection_S query now m h o)).
Proof.
  destruct (connection_init query now m h o) as (H1 & _ & H3 & H4).
  repeat split; try done. simpl. by rewrite H1.
Qed.

(** X19.  [ai_voice_relay_server.js] never sets a connection up.  It calls
    [connectOpenAI] without defining it, so the [try] block of every
    connection ends in the [catch] block, whatever the AI service would
    answer: the one call on a socket is [twilioWS.close()] and the handlers of
    the AI socket and of the caller's ['close'] are not registered.  In every
    run of a connection, then, [aiWS] stays [null] and [aiReady] false, no call
    is ever made on the AI socket, no media event is sent to the caller, and
    no [finalizeAndNotify] and no summary request is made. *)
Theorem no_connection_is_ever_set_up query now m h o ks :
  let r := run_S ks (connection_S query now m h o) in
  registered (relay r.1) <> Active
  /\ aiWS (relay r.1) = None
  /\ aiReady (relay r.1) = false
  /\ Forall (fun x => is_ai_call x = false /\ is_TwilioSend x = false
                      /\ notifies x = false) r.2
  /\ (registered (relay r.1) = Connecting ->
      forall t opens,
        socket_calls (step_S t (Event (OpenAISettled opens)) r.1).2 = [TwilioClose]
        /\ registered (relay (step_S t (Event (OpenAISettled opens)) r.1).1) = Failed).
Proof.
  intros r.
  assert (unconnected (relay r.1)
          /\ Forall (fun x => is_ai_call x = false /\ is_TwilioSend x = false
                              /\ notifies x = false) r.2) as [(H1 & H2 & H3) H4].
  { unfold r. generalize (connection_unconnected query now m h o).
    generalize (connection_S query now m h o). clear r.
    induction ks as [|[t k] ks IH]; intros c Hc; [by split|].
    rewrite run_S_cons; cbn [fst snd].
    destruct (step_S_unconnected t k c Hc) as (Hc' & Hout & _).
    destruct (IH (step_S t k c).1 Hc') as [H1 H2].
    split; [done|]. by apply Forall_app_2. }
  repeat split; try done.
  all: by apply step_S_settle.
Qed.

Lemma step_S_stat_lines now k c :
  stat_lines (step_S now k c).2
  = match k with
    | Interval => if dump (stats c) then [Console Log (stat_line (stats c))] else []
    | Event _ => []
    end.
Proof.
  destruct k as [e|].
  - apply (wpS_step now (Event e) (fun _ out => stat_lines out = [])).
    wpS_handlers. wpS_run; simpl; done.
  - unfold step_S, dispatch_S, on_interval. by destruct (dump (stats c)).
Qed.

(** X23.  What the counters of [ai_voice_relay_server.js] come to, since no
    connection is ever set up: along every run of a connection
    [framesFromCaller] is the number of media frames the caller has sent,
    none of which is forwarded, and [framesFromAI] and [framesToTwilio] stay
    zero, so that every line the statistics timer writes reads
    [ai=0 out=0]. *)
Theorem counters_count_the_caller_only query now m h o ks :
  let r := run_S ks (connection_S query now m h o) in
  framesFromCaller (stats r.1) = length (frames_of (events_of ks))
  /\ framesFromAI (stats r.1) = 0%nat
  /\ framesToTwilio (stats r.1) = 0%nat
  /\ Forall (fun x => exists n, x = Console Log (stat_line (mkStats n 0 0 true)))
       (stat_lines r.2).
Proof.
  intros r. unfold r. clear r.
  assert (forall c,
    unconnected (relay c) -> framesFromAI (stats c) = 0%nat ->
    framesToTwilio (stats c) = 0%nat ->
    framesFromCaller (stats (run_S ks c).1)
      = (framesFromCaller (stats c) + length (frames_of (events_of ks)))%nat
    /\ framesFromAI (stats (run_S ks c).1) = 0%nat
    /\ framesToTwilio (stats (run_S ks c).1) = 0%nat
    /\ Forall (fun x => exists n, x = Console Log (stat_line (mkStats n 0 0 true)))
         (stat_lines (run_S ks c).2)) as H.
  { induction ks as [|[t k] ks IH]; intros c Hc Ha Ho.
    - simpl. repeat split; try done; try lia; constructor.
    - rewrite run_S_cons, events_of_cons, frames_of_app, length_app; cbn [fst snd].
      destruct (step_S_unconnected t k c Hc) as (Hc' & _ & Ha' & Ho').
      destruct (step_S_counts t k c) as (Hin & _).
      destruct (IH (step_S t k c).1 Hc') as (H1 & H2 & H3 & H4); [congruence..|].
      repeat split; try done; try lia.
      unfold stat_lines in *. rewrite List.filter_app. apply Forall_app_2; [|done].
      fold (stat_lines (step_S t k c).2). rewrite step_S_stat_lines.
      destruct k as [e|]; [constructor|].
      destruct (dump (stats c)) eqn:Hd; [|constructor].
      repeat constructor. exists (framesFromCaller (stats c)).
      destruct (stats c) as [a b d e]. simpl in *. by subst. }
  destruct (H (connection_S query now m h o)) as (H1 & H2 & H3 & H4);
    [apply connection_unconnected | done | done |].
  by repeat split.
Qed.

(** ** The configuration of the AI socket comes first *)

Lemma ai_calls_app out1 out2 : ai_calls (out1 ++ out2) = ai_calls out1 ++ ai_calls out2.
Proof. apply List.filter_app. Qed.

Lemma step_unconnected now e st :
  unconnected st ->
  (e = OpenAISettled true /\ registered st = Connecting
   /\ exists out, (step now e st).2 = AiSend (session_update SYSTEM_PROMPT) :: out)
  \/ (unconnected (step now e st).1 /\ ai_calls (step now e st).2 = []).
Proof.
  intros (Hp & Hw & Hr).
  destruct (registered st) eqn:Hreg; [|done|].
  - destruct e as [raw| |[]|raw| |ok].
    3: { left. repeat split; try done.
         unfold step, dispatch, read, mbind, M_bind. rewrite Hreg.
         unfold connected, connectOpenAI, try_catch, emit, mbind, M_bind.
         cbn -[session_update greeting].
         repeat case_match; simplify_eq; by eexists. }
    all: right.
    all: apply (wp_step now _ (fun st' out => unconnected st' /\ ai_calls out = [])).
    all: wp_handlers; unfold unconnected.
    all: wp_run; simpl; simplify_eq; rewrite ?Hw, ?Hr in *; simpl in *;
      rewrite ?Hreg; try done; repeat split; congruence.
  - right.
    apply (wp_step now e (fun st' out => unconnected st' /\ ai_calls out = [])).
    wp_handlers; unfold unconnected.
    wp_run; simpl; simplify_eq; rewrite ?Hw, ?Hr in *; simpl in *;
      rewrite ?Hreg; try done; repeat split; congruence.
Qed.

Lemma run_unconnected evs st :
  unconnected st ->
  match ai_calls (run evs st).2 with
  | [] => True
  | c :: _ => c = AiSend (session_update SYSTEM_PROMPT)
  end.
Proof.
  revert st. induction evs as [|[now e] evs IH]; intros st Hst; [done|].
  rewrite run_cons; cbn [fst snd]. rewrite ai_calls_app.
  destruct (step_unconnected now e st Hst) as [(_ & _ & out & ->)|[H1 ->]].
  - done.
  - by apply IH.
Qed.

(** X24.  Nothing reaches the AI socket before its configuration: in every
    run of a connection, the first call made on the AI socket, if there is
    one, is the send of the [session.update] event that [connectOpenAI] writes
    when the socket opens, with the instructions of [SYSTEM_PROMPT].  Media
    frames and a ['stop'] that arrive earlier write nothing to it. *)
Theorem configuration_comes_first query now m h o evs :
  match ai_calls (run evs (connection query now m h o)).2 with
  | [] => True
  | c :: _ => c = AiSend (session_update SYSTEM_PROMPT)
  end.
Proof.
  apply run_unconnected. destruct (connection_init query now m h o) as (H1 & _ & H3 & H4).
  repeat split; try done. by rewrite H1.
Qed.

(** ** The audio test of the fragment *)

Lemma truthy_js_or a b : truthy (js_or a b) = truthy a || truthy b.
Proof. unfold js_or. by destruct (truthy a) eqn:E; rewrite ?E. Qed.

Lemma truthy_js_and a b : truthy (js_and a b) = truthy a && truthy b.
Proof. unfold js_and. by destruct (truthy a) eqn:E; rewrite ?E. Qed.

Lemma counted_any_payload msg : counted_any msg = truthy (audioPayload_any msg).
Proof.
  unfold counted_any, isAudioDelta_any, audioPayload_any.
  rewrite !truthy_js_or, !truthy_js_and.
  destruct (truthy (get msg "audio")), (truthy (get msg "delta")),
    (truthy (get msg "chunk")), (truthy (nestedBytes msg));
    rewrite ?andb_false_r, ?orb_true_r; done.
Qed.

(** X25.  In the message callback of the fragment the event type decides
    nothing: the test [isAudioDelta || audioPayload] holds exactly when
    [audioPayload] is truthy, so an event of any type is counted, and
    forwarded when [streamSid] is set, as soon as it has a truthy [audio],
    [delta] or [chunk] member or nested output bytes; the inner test of
    [payload] never fails. *)
Theorem fragment_forwards_by_payload_alone msg sid :
  counted_any msg = truthy (audioPayload_any msg)
  /\ forwarded_any msg sid = truthy (audioPayload_any msg) && truthy sid.
Proof.
  split; [apply counted_any_payload|].
  unfold forwarded_any. rewrite counted_any_payload, truthy_js_and.
  by destruct (truthy (audioPayload_any msg)).
Qed.

(** X26.  The fragment accepts everything the connection handler accepts,
    with the same payload: an event that passes [isAudioDelta && audioPayload]
    there passes the test of the fragment, and [audioPayload] is the same
    value in both. *)
Theorem fragment_accepts_what_the_handler_does msg :
  truthy (js_and (isAudioDelta msg) (audioPayload msg)) = true ->
  counted_any msg = true /\ audioPayload_any msg = audioPayload msg.
Proof.
  intros H. rewrite truthy_js_and in H. apply andb_prop in H as [_ H].
  assert (audioPayload_any msg = audioPayload msg) as Hp.
  { unfold audioPayload_any. fold (audioPayload msg).
    assert (js_or (audioPayload msg) (get msg "chunk") = audioPayload msg) as ->
      by (unfold js_or at 1; by rewrite H).
    unfold js_or at 1. by rewrite H. }
  split; [|done]. by rewrite counted_any_payload, Hp.
Qed.

(** ** A media frame of the caller, in both handlers *)




(** ** The route of outbound audio, in both handlers *)




End Relay.

(** ** The theorems at work on one call *)

Lemma ex_st0_reachable N8N prompt : reachable N8N prompt ex_st0.
Proof. apply reach_connection. apply map_Forall_empty. Qed.

Lemma ex_active_reachable N8N prompt : reachable N8N prompt (ex_active N8N prompt).
Proof. apply reachable_run, ex_st0_reachable. Qed.

(** The trace of the whole call. *)
Example ex_call_trace :
  (run ex_hook ex_prompt (ex_connect ++ ex_talk ++ ex_hangup) ex_st0).2
  = [ Console Log "[Twilio] START";
      AiSend (session_update ex_prompt);
      Console Log "[OpenAI] realtime socket connected";
      AiSend greeting;
      AiSend (append (str "QUJD"));
      TwilioSend (media (str "SX1") (str "AAAA"));
      Console Log "[Twilio] STOP";
      AiSend commit; AiSend closing; AiClose; TwilioClose;
      TwilioClose;
      Finalize "CA1";
      Fetch "https://n8n.example/webhook/summary"
        {| sum_callSid := "CA1"; startedAt := 100; endedAt := 109;
           sum_transcript :=
             [ {| from := str "agent"; text := str "Buongiorno, Revan"; t := 105 |};
               {| from := str "caller"; text := str "Vorrei un appuntamento";
                  t := 106 |} ];
           sum_fields := ∅ |};
      AiClose;
      TwilioClose ].
Proof. vm_compute. reflexivity. Qed.


(** C1, as stated, fails for a ['start'] event whose [streamSid] is [1e400]:
    the number parses to [Infinity], which passes the test of [streamSid],
    and the media event sent for the next audio delta is written with
    [streamSid] [null]. *)
Lemma streamSid_gates_outbound_audio_counterexample :
  ~ (forall evs,
       Forall (fun c => forall msg, c = TwilioSend msg ->
                 exists sid, get (written msg) "streamSid" = Some sid /\ sid <> JNull)
              (run ex_hook ex_prompt evs ex_st0).2).
Proof.
  intros H.
  specialize (H [(101, TwilioMessage (Some ex_start_inf)); (102, OpenAISettled true);
                 (103, AiMessage (Some ex_audio))]).
  assert (Hrun : (run ex_hook ex_prompt
                    [(101, TwilioMessage (Some ex_start_inf)); (102, OpenAISettled true);
                     (103, AiMessage (Some ex_audio))] ex_st0).2
                 = [ Console Log "[Twilio] START";
                     AiSend (session_update ex_prompt);
                     Console Log "[OpenAI] realtime socket connected";
                     AiSend greeting;
                     TwilioSend (media (Some (JNum infinity)) (str "AAAA")) ])
    by (vm_compute; reflexivity).
  rewrite Hrun in H.
  rewrite Forall_forall in H.
  destruct (H (TwilioSend (media (Some (JNum infinity)) (str "AAAA")))
              ltac:(repeat first [by left | right]) _ eq_refl) as (sid & Hsid & Hne).
  vm_compute in Hsid. by injection Hsid as <-.
Qed.

Lemma finalize_exactly_once_witness :
  registered (ex_active ex_hook ex_prompt) = Active
  /\ length (List.filter is_TwilioClosed (ex_talk ++ ex_hangup)) = 1%nat
  /\ List.filter is_Finalize
       (run ex_hook ex_prompt (ex_talk ++ ex_hangup) (ex_active ex_hook ex_prompt)).2
     = [Finalize "CA1"]
  /\ length (List.filter is_Fetch
       (run ex_hook ex_prompt (ex_talk ++ ex_hangup) (ex_active ex_hook ex_prompt)).2)
     = 1%nat.
Proof.
  assert (Ha : registered (ex_active ex_hook ex_prompt) = Active)
    by (vm_compute; reflexivity).
  assert (Hc : length (List.filter is_TwilioClosed (ex_talk ++ ex_hangup)) = 1%nat)
    by reflexivity.
  destruct (finalize_exactly_once ex_hook ex_prompt _ _ Ha Hc) as (H1 & _ & H3 & _).
  split; [exact Ha|]. split; [exact Hc|]. split; [exact H1|].
  apply H3; [apply ex_active_reachable | reflexivity].
Defined.

Lemma connect_failure_never_notifies_witness :
  Forall (fun e => is_OpenAISettled e = false)
         [(101, TwilioMessage (Some ex_start)); (102, TwilioMessage (Some ex_media))]
  /\ socket_calls
       (step ex_hook ex_prompt 103 (OpenAISettled false)
          (run ex_hook ex_prompt
             [(101, TwilioMessage (Some ex_start)); (102, TwilioMessage (Some ex_media))]
             ex_st0).1).2
     = [TwilioClose]
  /\ Forall (fun c => is_Finalize c = false /\ is_Fetch c = false)
       (run ex_hook ex_prompt
          ([(101, TwilioMessage (Some ex_start)); (102, TwilioMessage (Some ex_media))]
           ++ (103, OpenAISettled false) :: ex_hangup)
          ex_st0).2.
Proof.
  assert (Hpre : Forall (fun e => is_OpenAISettled e = false)
            [(101, TwilioMessage (Some ex_start)); (102, TwilioMessage (Some ex_media))])
    by (repeat constructor).
  split; [exact Hpre|].
  exact (connect_failure_never_notifies ex_hook ex_prompt (Some "CA1") 100 ∅ [] []
           _ 103 ex_hangup Hpre).
Defined.

Lemma audio_delta_shapes_witness :
  registered (ex_active ex_hook ex_prompt) = Active
  /\ truthy (streamSid (ex_active ex_hook ex_prompt)) = true
  /\ (step ex_hook ex_prompt 104 (AiMessage (Some ex_audio))
        (ex_active ex_hook ex_prompt)).2
     = [TwilioSend (media (str "SX1") (str "AAAA"))]
  /\ (step ex_hook ex_prompt 104 (AiMessage (Some ex_output_audio))
        (ex_active ex_hook ex_prompt)).2
     = [TwilioSend (media (str "SX1") (str "AAAA"))]
  /\ (step ex_hook ex_prompt 104 (AiMessage (Some ex_both))
        (ex_active ex_hook ex_prompt)).2
     = [TwilioSend (media (str "SX1") (str "AAAA"))]
  /\ (step ex_hook ex_prompt 104 (AiMessage (Some ex_transcript))
        (ex_active ex_hook ex_prompt)).2
     = [].
Proof.
  assert (Ha : registered (ex_active ex_hook ex_prompt) = Active)
    by (vm_compute; reflexivity).
  assert (Hs : truthy (streamSid (ex_active ex_hook ex_prompt)) = true)
    by (vm_compute; reflexivity).
  split; [exact Ha|]. split; [exact Hs|]. split; [|split; [|split]].
  - destruct (audio_delta_shapes ex_hook ex_prompt 104 ex_audio _ Ha Hs)
      as (_ & _ & H1 & _).
    apply H1; reflexivity.
  - destruct (audio_delta_shapes ex_hook ex_prompt 104 ex_output_audio _ Ha Hs)
      as (_ & _ & _ & H2 & _).
    apply H2; reflexivity.
  - destruct (audio_delta_shapes ex_hook ex_prompt 104 ex_both _ Ha Hs)
      as (_ & H0 & _).
    apply H0; reflexivity.
  - destruct (audio_delta_shapes ex_hook ex_prompt 104 ex_transcript _ Ha Hs)
      as (_ & _ & _ & _ & H3).
    apply H3; discriminate.
Defined.

(** C4, as stated, fails for an output delta that has an [audio] member as
    well: the payload sent is that member, not [delta]. *)
Lemma audio_delta_shapes_counterexample :
  ~ (forall st now msg,
       reachable ex_hook ex_prompt st ->
       registered st = Active ->
       truthy (streamSid st) = true ->
       get msg "type" = str "response.output_audio.delta" ->
       truthy (get msg "delta") = true ->
       (step ex_hook ex_prompt now (AiMessage (Some msg)) st).2
         = [TwilioSend (media (streamSid st) (get msg "delta"))]).
Proof.
  intros H.
  specialize (H (ex_active ex_hook ex_prompt) 104 ex_both
                (ex_active_reachable _ _) ltac:(vm_compute; reflexivity)
                ltac:(vm_compute; reflexivity) eq_refl eq_refl).
  apply (f_equal (fun out => match out with
                             | [TwilioSend m] => get_opt (get m "media") "payload"
                             | _ => None
                             end)) in H.
  vm_compute in H. discriminate H.
Qed.

Lemma stop_teardown_witness :
  get ex_stop "event" = str "stop"
  /\ socket_calls
       (step ex_hook ex_prompt 107 (TwilioMessage (Some ex_stop))
          (ex_active ex_hook ex_prompt)).2
     = [AiSend commit; AiSend closing; AiClose; TwilioClose]
  /\ socket_calls
       (step ex_hook ex_prompt 107 (TwilioMessage (Some ex_stop))
          (set_throws [true; true; true; true] (ex_active ex_hook ex_prompt))).2
     = [AiSend commit; AiSend closing; AiClose; TwilioClose]
  /\ socket_calls
       (step ex_hook ex_prompt 101 (TwilioMessage (Some ex_stop)) ex_st0).2
     = [TwilioClose].
Proof.
  split; [reflexivity|]. split; [|split].
  - exact (stop_teardown ex_hook ex_prompt 107 ex_stop (ex_active ex_hook ex_prompt)
             [] eq_refl).
  - exact (stop_teardown ex_hook ex_prompt 107 ex_stop (ex_active ex_hook ex_prompt)
             [true; true; true; true] eq_refl).
  - exact (stop_teardown ex_hook ex_prompt 101 ex_stop ex_st0 [] eq_refl).
Defined.

(** C5, as stated, fails for a caller that stops before the AI socket is
    there: the only call is the close of the caller socket. *)
Lemma stop_teardown_counterexample :
  ~ (forall st now msg,
       reachable ex_hook ex_prompt st ->
       get msg "event" = str "stop" ->
       socket_calls (step ex_hook ex_prompt now (TwilioMessage (Some msg)) st).2
         = [AiSend commit; AiSend closing; AiClose; TwilioClose]).
Proof.
  intros H.
  specialize (H ex_st0 101 ex_stop (ex_st0_reachable ex_hook ex_prompt) eq_refl).
  vm_compute in H. discriminate H.
Qed.


(** C6, as stated, fails twice.  In the handler of
    [ai_voice_relay_server.js] a frame that is dropped is counted: the state
    changes.  And a frame whose payload is [1e400] is forwarded with [audio]
    written [null], not the payload. *)
Lemma media_frame_forwarding_counterexample :
  ~ (forall now msg c,
       is_MediaFrame msg = true -> aiReady (relay c) = false ->
       step_S ex_hook now (Event (TwilioMessage (Some msg))) c = (c, []))
  /\ ~ (forall now msg st,
          reachable ex_hook ex_prompt st ->
          is_MediaFrame msg = true -> aiReady st = true ->
          exists ev,
            socket_calls (step ex_hook ex_prompt now (TwilioMessage (Some msg)) st).2
            = [AiSend ev]
            /\ get (written ev) "audio" = frame_payload msg).
Proof.
  split.
  - intros H.
    specialize (H 101 ex_media (connection_S (Some "CA1") 100 ∅ [] []) eq_refl eq_refl).
    apply (f_equal (fun r => framesFromCaller (stats r.1))) in H.
    vm_compute in H. discriminate H.
  - intros H.
    destruct (H 103 ex_media_inf (ex_active ex_hook ex_prompt)
                (ex_active_reachable _ _) eq_refl ltac:(vm_compute; reflexivity))
      as (ev & Hc & Ha).
    vm_compute in Hc. injection Hc as <-.
    vm_compute in Ha. discriminate Ha.
Qed.

Lemma finalize_keeps_session_witness :
  sessions (step ex_hook ex_prompt 109 TwilioClosed
              (run ex_hook ex_prompt ex_talk (ex_active ex_hook ex_prompt)).1).1
    = sessions (run ex_hook ex_prompt ex_talk (ex_active ex_hook ex_prompt)).1
  /\ the_session
       (connection (Some "CA1") 200
          (sessions (step ex_hook ex_prompt 109 TwilioClosed
                       (run ex_hook ex_prompt ex_talk (ex_active ex_hook ex_prompt)).1).1)
          (heap (step ex_hook ex_prompt 109 TwilioClosed
                   (run ex_hook ex_prompt ex_talk (ex_active ex_hook ex_prompt)).1).1)
          [])
     = the_session (run ex_hook ex_prompt ex_talk (ex_active ex_hook ex_prompt)).1.
Proof.
  destruct (finalize_keeps_session ex_hook ex_prompt 109
              (run ex_hook ex_prompt ex_talk (ex_active ex_hook ex_prompt)).1)
    as (_ & Hm & _ & Hc).
  split; [exact Hm|].
  apply (Hc (reachable_run _ _ _ _ (ex_active_reachable _ _)) 200 []).
Defined.

(** C7, as stated, fails: after the call has ended and [finalizeAndNotify]
    has run, the session is still stored under its [callSid], and a new
    connection with that [callSid] finds it, transcript included, not a
    fresh one. *)
Lemma finalize_keeps_session_counterexample :
  ~ (forall st now now' o,
       reachable ex_hook ex_prompt st ->
       registered st = Active ->
       sessions (step ex_hook ex_prompt now TwilioClosed st).1 !! callSid st = None
       \/ the_session
            (connection (Some (callSid st)) now'
               (sessions (step ex_hook ex_prompt now TwilioClosed st).1)
               (heap (step ex_hook ex_prompt now TwilioClosed st).1) o)
          = Some (newSession now')).
Proof.
  intros H.
  destruct (H (run ex_hook ex_prompt ex_talk (ex_active ex_hook ex_prompt)).1 109 200 []
              (reachable_run _ _ _ _ (ex_active_reachable _ _))
              ltac:(vm_compute; reflexivity)) as [Hn|Hf].
  - vm_compute in Hn. discriminate Hn.
  - vm_compute in Hf. discriminate Hf.
Qed.




Lemma transcript_append_only_witness :
  exists s s',
    the_session (ex_active ex_hook ex_prompt) = Some s
    /\ the_session (run ex_hook ex_prompt ex_talk (ex_active ex_hook ex_prompt)).1 = Some s'
    /\ transcript s' =
         transcript s
         ++ [ {| from := str "agent"; text := str "Buongiorno, Revan"; t := 105 |};
              {| from := str "caller"; text := str "Vorrei un appuntamento"; t := 106 |} ].
Proof.
  exact (proj1 (proj2 (transcript_append_only ex_hook ex_prompt)) ex_talk
           (ex_active ex_hook ex_prompt) (ex_active_reachable _ _)
           ltac:(vm_compute; reflexivity)).
Defined.

Lemma finalizeAndNotify_guarded_no_op_witness :
  finalizeAndNotify None 109 "CA1" (ex_active None ex_prompt)
    = (Normal tt, ex_active None ex_prompt, [])
  /\ Forall (fun c => is_Fetch c = false)
       (run None ex_prompt (ex_connect ++ ex_talk ++ ex_hangup) ex_st0).2.
Proof.
  split.
  - apply (proj1 (finalizeAndNotify_guarded_no_op None ex_prompt)). by right.
  - apply (proj2 (finalizeAndNotify_guarded_no_op None ex_prompt) eq_refl).
Defined.



(** ** More of the call, and of others *)

Lemma ai_message_swallowed_witness :
  registered (ex_active ex_hook ex_prompt) = Active
  /\ step ex_hook ex_prompt 104
       (AiMessage (Some (obj [member "type" (str "response.done")])))
       (ex_active ex_hook ex_prompt)
     = (ex_active ex_hook ex_prompt, []).
Proof.
  assert (Ha : registered (ex_active ex_hook ex_prompt) = Active)
    by (vm_compute; reflexivity).
  split; [exact Ha|].
  apply (ai_message_swallowed ex_hook ex_prompt 104 _ _ Ha); [reflexivity..|].
  intros msg [= <-]. reflexivity.
Defined.

Lemma route_changes_only_on_start_witness :
  get ex_start "event" = str "start"
  /\ route_of ex_start = str "SX1"
  /\ streamSid
       (run ex_hook ex_prompt
          ((101, TwilioMessage (Some ex_start))
           :: [(102, OpenAISettled true); (103, TwilioMessage (Some ex_media));
               (104, AiMessage (Some ex_audio)); (105, TwilioMessage (Some ex_stop))])
          ex_st0).1
     = route_of ex_start.
Proof.
  split; [reflexivity|]. split; [reflexivity|].
  apply (route_changes_only_on_start ex_hook ex_prompt 101 ex_start ex_st0);
    [reflexivity|].
  repeat first [apply Forall_nil_2 | apply Forall_cons_2; [vm_compute; reflexivity|]].
Defined.

Lemma close_before_connect_is_lost_witness :
  Forall (fun c => is_Finalize c = false /\ is_Fetch c = false)
    (run ex_hook ex_prompt
       ([(101, TwilioMessage (Some ex_start)); (102, TwilioClosed)]
        ++ (103, OpenAISettled true)
           :: [(104, AiMessage (Some ex_audio)); (105, AiClosed)])
       (connection (Some "CA1") 100 ∅ [] [])).2.
Proof.
  apply (close_before_connect_is_lost ex_hook ex_prompt (Some "CA1") 100 ∅ [] []
           [(101, TwilioMessage (Some ex_start)); (102, TwilioClosed)] 103 true
           [(104, AiMessage (Some ex_audio)); (105, AiClosed)]);
    repeat first [apply Forall_nil_2 | apply Forall_cons_2; [reflexivity|]].
Defined.

Lemma greeting_failure_ends_call_witness :
  registered (set_throws [true] ex_st0) = Connecting
  /\ socket_calls (step ex_hook ex_prompt 101 (OpenAISettled true)
                     (set_throws [true] ex_st0)).2
     = [AiSend (session_update ex_prompt); AiSend greeting; TwilioClose]
  /\ registered (step ex_hook ex_prompt 101 (OpenAISettled true)
                   (set_throws [true] ex_st0)).1 = Failed.
Proof.
  split; [reflexivity|].
  destruct (greeting_failure_ends_call ex_hook ex_prompt 101 [] (set_throws [true] ex_st0)
              eq_refl eq_refl) as (H1 & H2 & _).
  split; [exact H1 | exact H2].
Defined.

Lemma session_updates_are_separate_witness :
  the_session (ex_active ex_hook ex_prompt) = Some (newSession 100)
  /\ exists s',
       the_session (step ex_hook ex_prompt 105 (AiMessage (Some ex_transcript))
                      (ex_active ex_hook ex_prompt)).1 = Some s'
       /\ start s' = start (newSession 100)
       /\ (transcript s' = transcript (newSession 100)
           \/ fields s' = fields (newSession 100)).
Proof.
  assert (Hs : the_session (ex_active ex_hook ex_prompt) = Some (newSession 100))
    by (vm_compute; reflexivity).
  split; [exact Hs|].
  destruct (session_updates_are_separate ex_hook ex_prompt 105
              (AiMessage (Some ex_transcript)) _ _ Hs) as (s' & H1 & H2 & H3 & _).
  exists s'. split; [exact H1|]. split; [exact H2 | exact H3].
Defined.



Lemma summary_carries_the_call_witness :
  registered (ex_active ex_hook ex_prompt) = Active
  /\ the_session (ex_active ex_hook ex_prompt) = Some (newSession 100)
  /\ exists s',
       the_session (run ex_hook ex_prompt ex_talk (ex_active ex_hook ex_prompt)).1
       = Some s'
       /\ transcript s' = transcript (newSession 100) ++ entries_of ex_talk
       /\ summaries (step ex_hook ex_prompt 109 TwilioClosed
                       (run ex_hook ex_prompt ex_talk (ex_active ex_hook ex_prompt)).1).2
          = [("https://n8n.example/webhook/summary",
              {| sum_callSid := callSid (ex_active ex_hook ex_prompt);
                 startedAt := start (newSession 100); endedAt := 109;
                 sum_transcript := transcript s'; sum_fields := fields s' |})].
Proof.
  assert (Ha : registered (ex_active ex_hook ex_prompt) = Active)
    by (vm_compute; reflexivity).
  assert (Hs : the_session (ex_active ex_hook ex_prompt) = Some (newSession 100))
    by (vm_compute; reflexivity).
  split; [exact Ha|]. split; [exact Hs|].
  apply (summary_carries_the_call ex_hook ex_prompt ex_talk 109 _ _ _
           (ex_active_reachable _ _) Ha eq_refl); [discriminate | exact Hs].
Defined.

Lemma transcript_in_chronological_order_witness :
  StronglySorted Z.le ((t <$> transcript (newSession 100)) ++ (fst <$> ex_talk))
  /\ exists s',
       the_session (run ex_hook ex_prompt ex_talk (ex_active ex_hook ex_prompt)).1
       = Some s'
       /\ StronglySorted Z.le (t <$> transcript s').
Proof.
  assert (Hsorted : StronglySorted Z.le
            ((t <$> transcript (newSession 100)) ++ (fst <$> ex_talk))).
  { simpl.
    repeat first [apply SSorted_nil | apply SSorted_cons | apply Forall_nil_2
                 | apply Forall_cons_2 | lia]. }
  split; [exact Hsorted|].
  apply (transcript_in_chronological_order ex_hook ex_prompt ex_talk
           (ex_active ex_hook ex_prompt) (newSession 100) (ex_active_reachable _ _));
    [vm_compute; reflexivity.. | exact Hsorted].
Defined.

Lemma connection_looks_up_or_creates_witness :
  callSid (connection (Some "CA1") 100 ∅ [] []) = "CA1"
  /\ the_session (connection (Some "CA1") 100 ∅ [] []) = Some (newSession 100)
  /\ the_session (connection (Some "CA1") 200 {[ "CA1" := 0%nat ]} [newSession 100] [])
     = Some (newSession 100).
Proof.
  assert (H0 : store_ok ∅ []) by apply map_Forall_empty.
  assert (H1 : store_ok {[ "CA1" := 0%nat ]} [newSession 100]).
  { apply map_Forall_singleton. simpl. lia. }
  destruct (connection_looks_up_or_creates "CA1" 100 ∅ [] [] ltac:(discriminate) H0)
    as (Ha & _ & Hb & _).
  destruct (connection_looks_up_or_creates "CA1" 200 {[ "CA1" := 0%nat ]}
              [newSession 100] [] ltac:(discriminate) H1) as (_ & _ & Hc & _).
  split; [exact Ha|]. split; [exact Hb | exact Hc].
Defined.


Lemma callSid_survives_the_url_witness :
  encodeURIComponent "CA 1&x" = "CA%201%26x"
  /\ query_value (encodeURIComponent "CA 1&x") = "CA 1&x".
Proof.
  split; [reflexivity|].
  exact (proj2 (callSid_survives_the_url ex_digits "CA 1&x" (Some "relay.example") 90 91 ∅ []
                  ltac:(discriminate))).
Defined.

Lemma voice_during_call_empties_summary_witness :
  registered (run ex_hook ex_prompt ex_talk (ex_active ex_hook ex_prompt)).1 = Active
  /\ summaries
       (step ex_hook ex_prompt 109 TwilioClosed
          (voice_during ex_digits
             (str (callSid (run ex_hook ex_prompt ex_talk (ex_active ex_hook ex_prompt)).1))
             (Some "relay.example") 107 108
             (run ex_hook ex_prompt ex_talk (ex_active ex_hook ex_prompt)).1)).2
     = [("https://n8n.example/webhook/summary",
         {| sum_callSid :=
              callSid (run ex_hook ex_prompt ex_talk (ex_active ex_hook ex_prompt)).1;
            startedAt := 108; endedAt := 109;
            sum_transcript := []; sum_fields := ∅ |})].
Proof.
  assert (Ha : registered (run ex_hook ex_prompt ex_talk (ex_active ex_hook ex_prompt)).1
               = Active) by (vm_compute; reflexivity).
  split; [exact Ha|].
  refine (proj2 (voice_during_call_empties_summary ex_hook ex_prompt ex_digits
                   (Some "relay.example") 107 108 109 _ _ _ Ha eq_refl _)); [|discriminate].
  apply reachable_run, ex_active_reachable.
Defined.

Lemma timer_outlives_failed_connect_witness :
  dump (stats (run_S ex_hook
                 ([(101, Event (TwilioMessage (Some ex_start))); (102, Interval)]
                  ++ (103, Event (OpenAISettled false))
                     :: [(104, Event TwilioClosed); (105, Interval)])
                 (connection_S (Some "CA1") 100 ∅ [] [])).1) = true.
Proof.
  refine (proj1 (timer_outlives_failed_connect ex_hook (Some "CA1") 100 ∅ [] []
                   [(101, Event (TwilioMessage (Some ex_start))); (102, Interval)] 103
                   [(104, Event TwilioClosed); (105, Interval)] _ _));
    repeat first [apply Forall_nil_2 | apply Forall_cons_2; [vm_compute; reflexivity|]].
Defined.

Lemma stats_timer_cleared_for_good_witness :
  clears (registered (relay (connection_S (Some "CA1") 100 ∅ [] [])))
    (101, Event (TwilioMessage (Some ex_stop))) = true
  /\ dump (stats (run_S ex_hook
                    ((101, Event (TwilioMessage (Some ex_stop)))
                     :: [(102, Interval); (103, Event (OpenAISettled true));
                         (104, Interval)])
                    (connection_S (Some "CA1") 100 ∅ [] [])).1) = false.
Proof.
  assert (Hc : clears (registered (relay (connection_S (Some "CA1") 100 ∅ [] [])))
                 (101, Event (TwilioMessage (Some ex_stop))) = true)
    by (vm_compute; reflexivity).
  split; [exact Hc|].
  exact (proj1 (stats_timer_cleared_for_good ex_hook 101 _
                  [(102, Interval); (103, Event (OpenAISettled true)); (104, Interval)]
                  _ Hc)).
Defined.

Lemma fragment_accepts_what_the_handler_does_witness :
  truthy (js_and (isAudioDelta ex_audio) (audioPayload ex_audio)) = true
  /\ counted_any ex_audio = true
  /\ audioPayload_any ex_audio = audioPayload ex_audio.
Proof.
  split; [reflexivity|].
  exact (fragment_accepts_what_the_handler_does ex_audio eq_refl).
Defined.
